(** * jesterui: lobby, game addressing, search and current-game tracking

    A shallow embedding of the lobby page ([LobbyPage.tsx]), the search page
    ([SearchPage.tsx]), the game cards ([GameCard], [CurrentGameCard]) and the
    development batch creator ([CreateMultipleGamesButton.tsx]), together with
    the identifier codec they call.

    Conventions:
    - a JavaScript [string] is a [string] (8-bit characters); [number]s that
      hold integers are [Z];
    - a thrown [Error] is the [Err] case of [Result];
    - [undefined] / [null] is [None];
    - a [Date] is its time value in milliseconds ([getTime]); the limit of
      the [Date] range (8.64e15 ms either side of the epoch) is not modelled. *)

From Stdlib Require Import ZArith List String Ascii Bool Lia QArith.
From Stdlib Require Import Sorting.Sorted.
From Equations Require Import Equations.
Import ListNotations.

Local Open Scope string_scope.
Local Open Scope list_scope.
Local Open Scope Z_scope.

(** ** JavaScript string primitives used by the sources *)

Module Js.

(** [s.length] *)
Definition length (s : string) : Z := Z.of_nat (String.length s).

(** [s.startsWith(p)] *)
Fixpoint startsWith (s p : string) {struct p} : bool :=
  match p, s with
  | EmptyString, _ => true
  | String _ _, EmptyString => false
  | String a p', String b s' => Ascii.eqb a b && startsWith s' p'
  end.

(** [s.indexOf(p)], counted from offset [i] of the original string:
    the first position where [p] occurs, [-1] when it does not. *)
Fixpoint indexOf_from (s p : string) (i : Z) : Z :=
  if startsWith s p then i
  else match s with
       | EmptyString => -1
       | String _ s' => indexOf_from s' p (i + 1)
       end.

Definition indexOf (s p : string) : Z := indexOf_from s p 0.

(** [s.lastIndexOf(c)] for a one-character needle. *)
Fixpoint lastIndexOf_from (s : string) (c : ascii) (i : Z) : Z :=
  match s with
  | EmptyString => -1
  | String a s' =>
      let r := lastIndexOf_from s' c (i + 1) in
      if r <? 0 then (if Ascii.eqb a c then i else -1) else r
  end.

Definition lastIndexOf (s : string) (c : ascii) : Z := lastIndexOf_from s c 0.

Fixpoint drop (n : nat) (s : string) : string :=
  match n, s with
  | O, _ => s
  | S _, EmptyString => EmptyString
  | S n', String _ s' => drop n' s'
  end.

Fixpoint take (n : nat) (s : string) : string :=
  match n, s with
  | O, _ => EmptyString
  | S _, EmptyString => EmptyString
  | S n', String a s' => String a (take n' s')
  end.

(** [s.substring(start)]: a negative [start] counts as [0]. *)
Definition substring (s : string) (start : Z) : string := drop (Z.to_nat start) s.

(** [s.slice(a, b)] and [s.slice(a)] for indices that are not negative
    (the only way the codec calls them). *)
Definition slice (s : string) (a b : Z) : string :=
  take (Z.to_nat (b - a)) (drop (Z.to_nat a) s).

Definition slice_from (s : string) (a : Z) : string := drop (Z.to_nat a) s.

(** [s.charCodeAt(i)] of one character. *)
Definition charCode (c : ascii) : Z := Z.of_N (N_of_ascii c).

Definition lowerChar (c : ascii) : ascii :=
  let n := N_of_ascii c in
  if (N.leb 65 n && N.leb n 90)%bool then ascii_of_N (n + 32) else c.

Definition upperChar (c : ascii) : ascii :=
  let n := N_of_ascii c in
  if (N.leb 97 n && N.leb n 122)%bool then ascii_of_N (n - 32) else c.

Fixpoint mapChars (f : ascii -> ascii) (s : string) : string :=
  match s with
  | EmptyString => EmptyString
  | String a s' => String (f a) (mapChars f s')
  end.

Definition toLowerCase : string -> string := mapChars lowerChar.
Definition toUpperCase : string -> string := mapChars upperChar.

(** [s.charAt(i)]: the empty string outside the string. *)
Definition charAt (s : string) (i : Z) : string :=
  if i <? 0 then EmptyString
  else match String.get (Z.to_nat i) s with
       | Some c => String c EmptyString
       | None => EmptyString
       end.

End Js.

(** ** Results of code that may throw *)

Inductive CodecError : Type :=
| TooShort
| ExceedsLengthLimit
| MixedCase
| NoSeparator
| MissingPrefix
| DataTooShort
| InvalidPrefix
| UnknownCharacter (c : ascii)
| InvalidChecksum
| Non5BitWord
| ExcessPadding
| NonZeroPadding
| WrongPrefix.

Inductive Result (A : Type) : Type :=
| Ok (a : A)
| Err (e : CodecError).
Arguments Ok {A} a.
Arguments Err {A} e.

(** ** The checksummed encoding *)

(** Modelled from the spec: [util/jester] ([JESTER_ID_PREFIX],
    [gameIdToJesterId], [jesterIdToGameId], [tryParseJesterId],
    [jesterPrivateStartGameRef]) and the encoder it calls are missing from the
    sources.  The spec asks for "a fixed literal prefix, a version/separator
    character, and an encoding of RawGameId plus an embedded checksum".  The
    sources fix the prefix and separator ([JESTER_ID_PREFIX + '1'] in
    [SearchPage.tsx]) and quote an identifier
    ([jester13s8c6xzp33n93zn2qmvtgaypncphz585fggggnzvppmxnyamvc4qpu3sdv]);
    the encoding is taken to be bech32m (BIP-350), under which that quoted
    identifier decodes (see [sample_id_decodes]). *)

Module Bech32m.

Definition ALPHABET : string := "qpzry9x8gf2tvdw0s3jn54khce6mua7l".

Fixpoint position (c : ascii) (s : string) (z : Z) : option Z :=
  match s with
  | EmptyString => None
  | String a s' => if Ascii.eqb a c then Some z else position c s' (z + 1)
  end.

(** The reverse table of [ALPHABET]. *)
Definition ALPHABET_MAP (c : ascii) : option Z := position c ALPHABET 0.

Definition ENCODING_CONST : Z := 0x2bc830a3.

Definition LIMIT : Z := 90.

(** [-((b >> i) & 1) & g] *)
Definition gen (b i g : Z) : Z := Z.land (- Z.land (Z.shiftr b i) 1) g.

(** One step of the checksum polynomial.  All values stay in [0, 2^30), so
    32-bit wrap-around never occurs (see [polymodStep_range]). *)
Definition polymodStep (pre : Z) : Z :=
  let b := Z.shiftr pre 25 in
  Z.lxor (Z.lxor (Z.lxor (Z.lxor (Z.lxor
    (Z.shiftl (Z.land pre 0x1ffffff) 5)
    (gen b 0 0x3b6a57b2))
    (gen b 1 0x26508e6d))
    (gen b 2 0x1ea119fa))
    (gen b 3 0x3d4233dd))
    (gen b 4 0x2a1462b3).

Fixpoint prefixChk_high (prefix : string) (chk : Z) : option Z :=
  match prefix with
  | EmptyString => Some chk
  | String c rest =>
      let code := Js.charCode c in
      if (code <? 33) || (code >? 126) then None
      else prefixChk_high rest (Z.lxor (polymodStep chk) (Z.shiftr code 5))
  end.

Fixpoint prefixChk_low (prefix : string) (chk : Z) : Z :=
  match prefix with
  | EmptyString => chk
  | String c rest =>
      prefixChk_low rest (Z.lxor (polymodStep chk) (Z.land (Js.charCode c) 0x1f))
  end.

(** Checksum state after the human-readable part; [None] for a prefix with
    a character outside 33..126. *)
Definition prefixChk (prefix : string) : option Z :=
  match prefixChk_high prefix 1 with
  | None => None
  | Some chk => Some (prefixChk_low prefix (polymodStep chk))
  end.

(** [while (bits >= outBits) { bits -= outBits; result.push((value >> bits) & maxV) }]
    The loop runs at most [bits] times when [outBits >= 1]; [fuel] counts them. *)
Fixpoint drain (fuel : nat) (outBits maxV value bits : Z) (result : list Z)
  : Z * list Z :=
  match fuel with
  | O => (bits, result)
  | S fuel' =>
      if bits >=? outBits
      then let bits' := bits - outBits in
           drain fuel' outBits maxV value bits'
                 (result ++ [Z.land (Z.shiftr value bits') maxV])
      else (bits, result)
  end.

(** The [for] loop of [convert].  The accumulator [value] is kept whole;
    only its low [bits] bits are ever read. *)
Fixpoint convert_loop (data : list Z) (inBits outBits maxV value bits : Z)
         (result : list Z) : Z * Z * list Z :=
  match data with
  | [] => (value, bits, result)
  | d :: data' =>
      let value' := Z.lor (Z.shiftl value inBits) d in
      let bits' := bits + inBits in
      let '(bits'', result') :=
        drain (Z.to_nat bits') outBits maxV value' bits' result in
      convert_loop data' inBits outBits maxV value' bits'' result'
  end.

Definition convert (data : list Z) (inBits outBits : Z) (pad : bool)
  : Result (list Z) :=
  let maxV := Z.shiftl 1 outBits - 1 in
  let '(value, bits, result) := convert_loop data inBits outBits maxV 0 0 [] in
  if pad then
    if bits >? 0
    then Ok (result ++ [Z.land (Z.shiftl value (outBits - bits)) maxV])
    else Ok result
  else
    if bits >=? inBits then Err ExcessPadding
    else if negb (Z.land (Z.shiftl value (outBits - bits)) maxV =? 0)
         then Err NonZeroPadding
         else Ok result.

Definition toWords (bytes : list Z) : Result (list Z) := convert bytes 8 5 true.
Definition fromWords (words : list Z) : Result (list Z) := convert words 5 8 false.

(** The data part of [encode]: checksum state and characters. *)
Fixpoint encode_words (words : list Z) (chk : Z) (result : string)
  : Result (Z * string) :=
  match words with
  | [] => Ok (chk, result)
  | x :: words' =>
      if negb (Z.shiftr x 5 =? 0) then Err Non5BitWord
      else encode_words words' (Z.lxor (polymodStep chk) x)
                        (result ++ Js.charAt ALPHABET x)%string
  end.

(** [for (i = 0; i < 6; ++i) result += ALPHABET.charAt((chk >> ((5 - i) * 5)) & 0x1f)] *)
Fixpoint encode_checksum (n : nat) (i : Z) (chk : Z) (result : string) : string :=
  match n with
  | O => result
  | S n' =>
      let v := Z.land (Z.shiftr chk ((5 - i) * 5)) 0x1f in
      encode_checksum n' (i + 1) chk (result ++ Js.charAt ALPHABET v)%string
  end.

Definition encode (prefix : string) (words : list Z) : Result string :=
  if Js.length prefix + 7 + Z.of_nat (List.length words) >? LIMIT
  then Err ExceedsLengthLimit
  else
    let prefix := Js.toLowerCase prefix in
    match prefixChk prefix with
    | None => Err InvalidPrefix
    | Some chk =>
        match encode_words words chk (prefix ++ "1")%string with
        | Err e => Err e
        | Ok (chk, result) =>
            let chk := Nat.iter 6 polymodStep chk in
            let chk := Z.lxor chk ENCODING_CONST in
            Ok (encode_checksum 6 0 chk result)
        end
    end.

(** The character loop of [decode]: the last six characters feed the
    checksum only. *)
Fixpoint decode_loop (wordChars : string) (i len : Z) (chk : Z) (words : list Z)
  : Result (Z * list Z) :=
  match wordChars with
  | EmptyString => Ok (chk, words)
  | String c rest =>
      match ALPHABET_MAP c with
      | None => Err (UnknownCharacter c)
      | Some v =>
          let chk' := Z.lxor (polymodStep chk) v in
          if i + 6 >=? len
          then decode_loop rest (i + 1) len chk' words
          else decode_loop rest (i + 1) len chk' (words ++ [v])
      end
  end.

Definition decode (str : string) : Result (string * list Z) :=
  if Js.length str <? 8 then Err TooShort
  else if Js.length str >? LIMIT then Err ExceedsLengthLimit
  else
    let lowered := Js.toLowerCase str in
    let uppered := Js.toUpperCase str in
    if negb (String.eqb str lowered) && negb (String.eqb str uppered) then Err MixedCase
    else
      let str := lowered in
      let split := Js.lastIndexOf str "1"%char in
      if split =? -1 then Err NoSeparator
      else if split =? 0 then Err MissingPrefix
      else
        let prefix := Js.slice str 0 split in
        let wordChars := Js.slice_from str (split + 1) in
        if Js.length wordChars <? 6 then Err DataTooShort
        else
          match prefixChk prefix with
          | None => Err InvalidPrefix
          | Some chk =>
              match decode_loop wordChars 0 (Js.length wordChars) chk [] with
              | Err e => Err e
              | Ok (chk, words) =>
                  if negb (chk =? ENCODING_CONST) then Err InvalidChecksum
                  else Ok (prefix, words)
              end
          end.

End Bech32m.

(** ** [util/jester] *)

(** A raw game id: the 32 bytes of the event that started the game. *)
Definition RawGameId : Type := list Z.

Definition is_byte (b : Z) : bool := (0 <=? b) && (b <? 256).

Definition valid_RawGameId (x : RawGameId) : Prop :=
  List.length x = 32%nat /\ Forall (fun b => 0 <= b < 256) x.

Definition valid_RawGameIdb (x : RawGameId) : bool :=
  Nat.eqb (List.length x) 32 && forallb is_byte x.

Definition JesterId : Type := string.

Module JesterUtils.

(** Modelled from the spec: the "fixed literal prefix", as the identifier
    quoted in [SearchPage.tsx] has it. *)
Definition JESTER_ID_PREFIX : string := "jester".

(** Modelled from the spec: [encode(rawGameId)] "deterministically encodes
    the 32 bytes into a checksummed string prefixed with a fixed literal
    tag". *)
Definition gameIdToJesterId (gameId : RawGameId) : Result JesterId :=
  match Bech32m.toWords gameId with
  | Err e => Err e
  | Ok words => Bech32m.encode JESTER_ID_PREFIX words
  end.

(** Modelled from the spec: [decode] checks the literal prefix, decodes the
    remainder under the checksummed encoding and checks the checksum; a
    failure is thrown. *)
Definition jesterIdToGameId (jesterId : JesterId) : Result RawGameId :=
  match Bech32m.decode jesterId with
  | Err e => Err e
  | Ok (prefix, words) =>
      if negb (String.eqb prefix JESTER_ID_PREFIX) then Err WrongPrefix
      else Bech32m.fromWords words
  end.

(** Modelled from the spec: the caller in [SearchPage.tsx] tests the result
    against [null] and otherwise uses it as the identifier, so a thrown
    failure of any kind becomes [null]. *)
Definition tryParseJesterId (val : JesterId) : option JesterId :=
  match jesterIdToGameId val with
  | Ok _ => Some val
  | Err _ => None
  end.

End JesterUtils.

(** ** Settings ([context/SettingsContext]) *)

(** Modelled from the spec: the settings context is missing from the sources.
    The sources read [settings.dev], [settings.identity?.pubkey] and
    [settings.currentGameJesterId] and dispatch a partial settings object
    ([{ currentGameJesterId: undefined }]); the spec's tracker has the
    transitions "setCurrent(id): any state -> HasCurrentGame(id)" and
    "clearCurrent(): any state -> NoCurrentGame".  A dispatch overwrites
    exactly the fields the dispatched object carries. *)

Module Settings.

Record Identity : Type := mkIdentity { pubkey : string }.

Record AppSettings : Type := mkAppSettings {
  dev : bool;
  identity : option Identity;
  currentGameJesterId : option JesterId
}.

(** A dispatched object: [None] for a field it does not carry, [Some v] for
    a field it carries with value [v] ([v] itself may be [undefined]). *)
Record SettingsUpdate : Type := mkSettingsUpdate {
  set_dev : option bool;
  set_identity : option (option Identity);
  set_currentGameJesterId : option (option JesterId)
}.

Definition override {A : Type} (old : A) (new : option A) : A :=
  match new with
  | Some v => v
  | None => old
  end.

(** Modelled from the spec: the reducer behind [useSettingsDispatch]. *)
Definition settingsDispatch (update : SettingsUpdate) (settings : AppSettings)
  : AppSettings :=
  {| dev := override (dev settings) (set_dev update);
     identity := override (identity settings) (set_identity update);
     currentGameJesterId :=
       override (currentGameJesterId settings) (set_currentGameJesterId update) |}.

(** [settingsDispatch({ currentGameJesterId: undefined } as AppSettings)],
    the body of [unsubscribeFromCurrentGame] in [CurrentGameCard]. *)
Definition unsubscribeFromCurrentGame : AppSettings -> AppSettings :=
  settingsDispatch {| set_dev := None; set_identity := None;
                      set_currentGameJesterId := Some None |}.

(** Modelled from the spec: [setCurrent(id)], "any state ->
    HasCurrentGame(id)"; its callers are missing from the sources. *)
Definition setCurrentGame (jesterId : JesterId) : AppSettings -> AppSettings :=
  settingsDispatch {| set_dev := None; set_identity := None;
                      set_currentGameJesterId := Some (Some jesterId) |}.

End Settings.

(** ** The event store ([util/app_db], Dexie) *)

(** Modelled from the spec: the table declaration is missing from the
    sources.  A [GameStartEvent] carries the fields of the spec's
    GameStartRecord that the sources read ([id], [created_at]) or query
    ([created_at], [event_tags]).  The store is "a queryable table of events
    supporting range queries on a timestamp field and equality queries on a
    tag field"; a table is the list of its rows in primary-key order, and a
    [where] clause yields the matching rows in the order of the index it
    names (index key first, primary key among equal keys). *)

Record GameStartEvent : Type := mkGameStartEvent {
  id : RawGameId;
  pubkey : string;
  created_at : Z;
  event_tags : list string
}.

Module Dexie.

Definition Table : Type := list GameStartEvent.

Fixpoint insert_created_at (e : GameStartEvent) (rows : list GameStartEvent)
  : list GameStartEvent :=
  match rows with
  | [] => [e]
  | r :: rows' =>
      if created_at e <=? created_at r then e :: r :: rows'
      else r :: insert_created_at e rows'
  end.

(** The rows in the order of the [created_at] index. *)
Definition by_created_at (table : Table) : list GameStartEvent :=
  fold_right insert_created_at [] table.

(** [between(lower, upper)]: lower bound included, upper bound excluded. *)
Definition in_range (lower upper : Q) (e : GameStartEvent) : bool :=
  Qle_bool lower (inject_Z (created_at e))
  && negb (Qle_bool upper (inject_Z (created_at e))).

(** [table.where('created_at').between(lower, upper)] *)
Definition where_created_at_between (table : Table) (lower upper : Q)
  : list GameStartEvent :=
  filter (in_range lower upper) (by_created_at table).

Definition has_tag (tag : string) (e : GameStartEvent) : bool :=
  existsb (String.eqb tag) (event_tags e).

(** [table.where('event_tags').equals(tag)]: every match has the same index
    key, so the rows come in primary-key order. *)
Definition where_event_tags_equals (table : Table) (tag : string)
  : list GameStartEvent :=
  filter (has_tag tag) table.

(** [collection.limit(n).toArray()] *)
Definition limit (n : Z) (rows : list GameStartEvent) : list GameStartEvent :=
  firstn (Z.to_nat n) rows.

End Dexie.

(** ** [LobbyPage.tsx] *)

Module LobbyPage.

Import Settings.

(** [process.env.NODE_ENV] *)
Inductive NodeEnv : Type := development | production | test.

Definition GAMES_FILTER_PAST_DURATION_IN_MINUTES (env : NodeEnv) : Z :=
  match env with
  | development => 30
  | _ => 5
  end.

Definition GAMES_FILTER_PAST_DURATION_IN_SECONDS (env : NodeEnv) : Z :=
  GAMES_FILTER_PAST_DURATION_IN_MINUTES env * 60.

Definition MAX_AMOUNT_OF_GAMES : Z := 100.
Definition MIN_UPDATE_IN_SECONDS : Z := 10.

Record Date : Type := mkDate { getTime : Z }.

Record GamesFilter : Type := mkGamesFilter {
  from : Date;
  until : Date
}.

Definition createGameOverviewFilter (env : NodeEnv) (now : Date) : GamesFilter :=
  let from := mkDate (getTime now - GAMES_FILTER_PAST_DURATION_IN_SECONDS env * 1000) in
  let until := mkDate (getTime now + GAMES_FILTER_PAST_DURATION_IN_SECONDS env * 1000) in
  {| from := from; until := until |}.

(** [d.getTime() / 1_000], as an exact fraction. *)
Definition seconds (d : Date) : Q := Qmake (getTime d) 1000.

(** The query function of [listOfStartGamesLiveQuery]. *)
Definition listOfStartGamesLiveQuery (game_start : Dexie.Table)
           (gameStartEventFilter : GamesFilter) : list GameStartEvent :=
  Dexie.limit MAX_AMOUNT_OF_GAMES
    (Dexie.where_created_at_between game_start
       (seconds (from gameStartEventFilter))
       (seconds (until gameStartEventFilter))).

(** A string in a condition: the empty string counts as false. *)
Definition truthy (s : string) : bool := negb (String.eqb s "").

(** [settings.identity?.pubkey || null] *)
Definition publicKeyOrNull (settings : AppSettings) : option string :=
  match identity settings with
  | Some i => if truthy (Settings.pubkey i) then Some (Settings.pubkey i) else None
  | None => None
  end.

Section PrivateChallenges.

(** [jesterPrivateStartGameRef] of [util/jester], missing from the
    sources: the spec's [deriveReferenceTag], a pure function of the
    public key. *)
Variable jesterPrivateStartGameRef : string -> string.

(** [publicKeyOrNull && jesterPrivateStartGameRef(publicKeyOrNull)] *)
Definition privateStartGameRef (publicKeyOrNull : option string) : option string :=
  match publicKeyOrNull with
  | Some pk => Some (jesterPrivateStartGameRef pk)
  | None => None
  end.

(** The query function of [listOfPrivateStartGamesLiveQuery]; [None] is
    its [null]. *)
Definition listOfPrivateStartGamesLiveQuery (game_start : Dexie.Table)
           (privateStartGameRef : option string) : option (list GameStartEvent) :=
  match privateStartGameRef with
  | None => None
  | Some ref =>
      if negb (truthy ref) then None
      else Some (Dexie.limit 3 (Dexie.where_event_tags_equals game_start ref))
  end.

End PrivateChallenges.

(** [settings.currentGameJesterId && jesterIdToGameId(settings.currentGameJesterId)].
    An absent identifier is passed through and equals no game id; an empty
    one is passed through as the empty string, which as a game id is the
    id without bytes; a failure of [jesterIdToGameId] is thrown out of the
    render. *)
Definition currentGameId (settings : AppSettings) : Result (option RawGameId) :=
  match currentGameJesterId settings with
  | None => Ok None
  | Some jesterId =>
      if negb (truthy jesterId) then Ok (Some [])
      else match JesterUtils.jesterIdToGameId jesterId with
           | Ok gameId => Ok (Some gameId)
           | Err e => Err e
           end
  end.

(** [game.id === props.currentGameId] *)
Definition isCurrentGame (game : GameStartEvent) (currentGameId : option RawGameId)
  : bool :=
  match currentGameId with
  | Some c => if list_eq_dec Z.eq_dec (id game) c then true else false
  | None => false
  end.


End LobbyPage.

(** ** [SearchPage.tsx] *)

Module SearchPage.

Record State : Type := mkState {
  searchInputValue : string;
  searchResults : option (list string);
  inputIsJesterId : option bool
}.

Definition initial : State :=
  {| searchInputValue := ""; searchResults := None; inputIsJesterId := None |}.

Definition setSearchInputValue (v : string) (st : State) : State :=
  {| searchInputValue := v;
     searchResults := searchResults st;
     inputIsJesterId := inputIsJesterId st |}.

Definition setSearchResults (v : option (list string)) (st : State) : State :=
  {| searchInputValue := searchInputValue st;
     searchResults := v;
     inputIsJesterId := inputIsJesterId st |}.

Definition setInputIsJesterId (v : option bool) (st : State) : State :=
  {| searchInputValue := searchInputValue st;
     searchResults := searchResults st;
     inputIsJesterId := v |}.

(** [search]: the state after the call and the path handed to [navigate],
    if any.  Console output is left out. *)
Definition search (searchInput : string) (st : State) : State * option string :=
  if String.eqb searchInput "" then (setSearchResults (Some []) st, None)
  else
    let indexOfPrefix :=
      Js.indexOf searchInput (JesterUtils.JESTER_ID_PREFIX ++ "1")%string in
    if indexOfPrefix <? 0
    then (setSearchResults (Some []) (setInputIsJesterId (Some false) st), None)
    else
      let possibleJesterId := Js.substring searchInput indexOfPrefix in
      match JesterUtils.tryParseJesterId possibleJesterId with
      | None => (setInputIsJesterId (Some false) (setSearchResults (Some []) st), None)
      | Some jesterId =>
          (setSearchResults None (setInputIsJesterId (Some true) st),
           Some ("/redirect/game/" ++ jesterId)%string)
      end.

(** The state a failed search and a successful search leave. *)
Definition rejected (st : State) : State :=
  {| searchInputValue := searchInputValue st;
     searchResults := Some [];
     inputIsJesterId := Some false |}.

Definition accepted (st : State) : State :=
  {| searchInputValue := searchInputValue st;
     searchResults := None;
     inputIsJesterId := Some true |}.

Definition onSearchButtonClicked (st : State) : State * option string :=
  search (searchInputValue st) st.

Definition onSearchInputChange (value : string) (st : State) : State :=
  setSearchResults None (setInputIsJesterId None (setSearchInputValue value st)).

(** What the user can do on the page. *)
Inductive Action : Type :=
| Change (value : string)
| Submit.

Definition step (st : State) (a : Action) : State :=
  match a with
  | Change value => onSearchInputChange value st
  | Submit => fst (onSearchButtonClicked st)
  end.

(** The states the page can be in. *)
Inductive reachable : State -> Prop :=
| reachable_initial : reachable initial
| reachable_step st a : reachable st -> reachable (step st a).

(** The spec's failure kinds and its [decode], following the spec's words:
    "Fails with MalformedIdentifier if the prefix is absent, with
    InvalidEncoding if decoding fails structurally, and with
    ChecksumMismatch if decoding succeeds structurally but the checksum is
    wrong". *)
Inductive ParseFailure : Type :=
| MalformedIdentifier
| InvalidEncoding
| ChecksumMismatch.

Definition decode_spec (candidate : string) : RawGameId + ParseFailure :=
  let i := Js.indexOf candidate (JesterUtils.JESTER_ID_PREFIX ++ "1")%string in
  if i <? 0 then inr MalformedIdentifier
  else match JesterUtils.jesterIdToGameId (Js.substring candidate i) with
       | Ok gameId => inl gameId
       | Err InvalidChecksum => inr ChecksumMismatch
       | Err _ => inr InvalidEncoding
       end.

End SearchPage.

(** ** [CreateMultipleGamesButton.tsx] *)

Module CreateMultipleGamesButton.

(** What a run does, in order: a click on the hidden create-game button
    (one game-creation request), or the wait of a [setTimeout] before its
    callback runs. *)
Inductive Event : Type :=
| Click
| Wait (ms : Z).

Definition chunks : Z := 10.

(** [for (let i = 0; i < amount; i++) createGameButtonRef.current?.click()],
    from a given [i]; the hidden button is rendered by the same component,
    so the ref is attached. *)
Equations? click_loop (i amount : Z) : list Event by wf (Z.to_nat (amount - i)) lt :=
  click_loop i amount with Z_lt_dec i amount := {
    | left _ => Click :: click_loop (i + 1) amount
    | right _ => [] }.
Proof. lia. Qed.

(** The callback of [setTimeout] runs once the calling code has returned
    and the delay has passed, so its events follow the [Wait]. *)
Equations? __dev_createMultipleGames (amount : Z) : list Event
  by wf (Z.to_nat amount) lt :=
  __dev_createMultipleGames amount with Z_le_dec amount chunks := {
    | left _ => click_loop 0 amount
    | right _ =>
        __dev_createMultipleGames chunks
          ++ Wait 4 :: __dev_createMultipleGames (amount - chunks) }.
Proof. all: unfold chunks in *; lia. Qed.

Definition is_click (e : Event) : bool :=
  match e with
  | Click => true
  | Wait _ => false
  end.

(** The number of game-creation requests of a run. *)
Definition requests (run : list Event) : nat :=
  List.length (filter is_click run).

(** The runs of clicks between the timeouts, and the delays. *)
Fixpoint bursts (run : list Event) (current : nat) : list nat :=
  match run with
  | [] => [current]
  | Click :: run' => bursts run' (S current)
  | Wait _ :: run' => current :: bursts run' 0
  end.

Fixpoint delays (run : list Event) : list Z :=
  match run with
  | [] => []
  | Click :: run' => delays run'
  | Wait ms :: run' => ms :: delays run'
  end.

(** Ten clicks and the wait that follows them. *)
Definition full_chunk : list Event := repeat Click 10 ++ [Wait 4].

Definition full_chunks (amount : Z) : nat := Z.to_nat ((amount - 1) / 10).

Definition last_chunk (amount : Z) : nat := Z.to_nat amount - 10 * full_chunks amount.

(** A run in chunks: [full_chunks amount] times ten clicks and a wait, then
    the clicks that remain. *)
Definition chunked (amount : Z) : list Event :=
  List.concat (repeat full_chunk (full_chunks amount)) ++ repeat Click (last_chunk amount).

End CreateMultipleGamesButton.

(** ** Reading the codec's lists as numbers *)

Module Digits.

(** The number written by [digits] in base [base], most significant digit
    first, continuing from [acc]. *)
Definition BEacc (base acc : Z) (digits : list Z) : Z :=
  fold_left (fun a d => a * base + d) digits acc.

Definition BE (base : Z) (digits : list Z) : Z := BEacc base 0 digits.

Definition digit (k d : Z) : Prop := 0 <= d < 2 ^ k.

(** What the loops of [convert] keep true: the groups pushed so far write
    the accumulator without its low [bits] bits. *)
Definition pushed (outBits value bits : Z) (result : list Z) : Prop :=
  0 <= value /\ 0 <= bits /\
  Forall (digit outBits) result /\
  BE (2 ^ outBits) result = value / 2 ^ bits.

(** The checksum state after [words], from [chk]. *)
Definition polymod (chk : Z) (words : list Z) : Z :=
  fold_left (fun c x => Z.lxor (Bech32m.polymodStep c) x) words chk.

(** The six 5-bit words of a 30-bit checksum, most significant first. *)
Definition checksum_words (chk : Z) : list Z :=
  map (fun i => Z.land (Z.shiftr chk ((5 - i) * 5)) 0x1f) [0; 1; 2; 3; 4; 5].

(** The characters of a list of words. *)
Fixpoint chars (words : list Z) : string :=
  match words with
  | [] => EmptyString
  | x :: words' => (Js.charAt Bech32m.ALPHABET x ++ chars words')%string
  end.

End Digits.

(** ** Concrete data for the scenarios *)

Module Scenario.

(** The all-zero game id of the spec's scenario. *)
Definition zero_id : RawGameId := repeat 0 32.

(** The identifier quoted on the search page. *)
Definition quoted_jester_id : JesterId :=
  "jester13s8c6xzp33n93zn2qmvtgaypncphz585fggggnzvppmxnyamvc4qpu3sdv".

Definition quoted_game_id : RawGameId :=
  [140; 15; 141; 24; 65; 140; 102; 88; 138; 106; 6; 216; 180; 116; 129; 158;
   3; 113; 80; 244; 74; 16; 132; 76; 76; 8; 118; 105; 147; 187; 102; 42].

(** The identifier of [zero_id], with its last character replaced by a
    character outside the alphabet, and by another character of the
    alphabet. *)
Definition zero_jester_id : JesterId :=
  "jester1qqqqqqqqqqqqqqqqqqqqqqqqqqqqqqqqqqqqqqqqqqqqqqqqqqqqx7ypsr".
Definition undecodable_id : string :=
  "jester1qqqqqqqqqqqqqqqqqqqqqqqqqqqqqqqqqqqqqqqqqqqqqqqqqqqqx7ypsb".
Definition wrong_checksum_id : string :=
  "jester1qqqqqqqqqqqqqqqqqqqqqqqqqqqqqqqqqqqqqqqqqqqqqqqqqqqqx7ypsq".


Definition game_id (n : Z) : RawGameId := repeat 0 31 ++ [n].

(** A stand-in for the reference tag of a public key. *)
Definition reference_stub (pubkey : string) : string := ("ref:" ++ pubkey)%string.

Definition challenge (n created : Z) (recipient : string) : GameStartEvent :=
  {| id := game_id n; pubkey := "sender"; created_at := created;
     event_tags := [reference_stub recipient] |}.

(** Three challenges addressed to [K] and one addressed to someone else,
    in primary-key order. *)
Definition challenges : Dexie.Table :=
  [challenge 1 20 "K"; challenge 2 10 "K"; challenge 3 30 "K"; challenge 4 15 "L"].

Fixpoint ascending (rows : list GameStartEvent) : bool :=
  match rows with
  | a :: (b :: _) as rest => (created_at a <=? created_at b) && ascending rest
  | _ => true
  end.

Fixpoint descending (rows : list GameStartEvent) : bool :=
  match rows with
  | a :: (b :: _) as rest => (created_at b <=? created_at a) && descending rest
  | _ => true
  end.

End Scenario.

(** ** More of [SearchPage.tsx]: what the page shows *)

Module SearchView.

Import SearchPage.

(** The identifier [search] ends up with for an input that is not empty:
    the text from the first occurrence of the prefix, if
    [tryParseJesterId] accepts it. *)
Definition found (searchInput : string) : option JesterId :=
  let indexOfPrefix :=
    Js.indexOf searchInput (JesterUtils.JESTER_ID_PREFIX ++ "1")%string in
  if indexOfPrefix <? 0 then None
  else JesterUtils.tryParseJesterId (Js.substring searchInput indexOfPrefix).

(** [error={inputIsJesterId === false ? ' ' : undefined}] *)
Definition showsError (st : State) : bool :=
  match inputIsJesterId st with
  | Some false => true
  | _ => false
  end.

(** [success={inputIsJesterId === true ? ' ' : undefined}] *)
Definition showsSuccess (st : State) : bool :=
  match inputIsJesterId st with
  | Some true => true
  | _ => false
  end.

(** [searchResults?.length === 0]: the "No results found." notice. *)
Definition showsNoResults (st : State) : bool :=
  match searchResults st with
  | Some [] => true
  | _ => false
  end.

End SearchView.

(** ** More of [LobbyPage.tsx]: the refresh timer and the sections shown *)

Module LobbyRefresh.

Import LobbyPage.

(** The two pieces of state the timer drives, and whether the effect's
    [AbortController] has been aborted. *)
Record State : Type := mkState {
  gameStartEventFilter : GamesFilter;
  tick : Z;
  aborted : bool
}.

(** The first render and its effects: [useState(Date.now())] for the tick,
    and the effect on [tick], which sets the filter from a fresh
    [new Date()]. *)
Definition mount (env : NodeEnv) (dateNow : Z) (effectAt : Date) : State :=
  {| gameStartEventFilter := createGameOverviewFilter env effectAt;
     tick := dateNow;
     aborted := false |}.

Inductive Event : Type :=
| IntervalFired (dateNow : Z) (effectAt : Date)
| Unmounted.

(** [IntervalFired]: the interval callback
    [!abortCtrl.signal.aborted && setTick((_) => Date.now())]; a tick that
    changed runs the effect [setGameStartEventFilter(createGameOverviewFilter(new Date()))],
    an unchanged tick does not.  [Unmounted]: the cleanup
    [clearInterval(timer); abortCtrl.abort()]. *)
Definition step (env : NodeEnv) (st : State) (ev : Event) : State :=
  match ev with
  | IntervalFired dateNow effectAt =>
      if aborted st then st
      else if dateNow =? tick st then st
      else {| gameStartEventFilter := createGameOverviewFilter env effectAt;
              tick := dateNow;
              aborted := false |}
  | Unmounted =>
      {| gameStartEventFilter := gameStartEventFilter st;
         tick := tick st;
         aborted := true |}
  end.

Definition run (env : NodeEnv) (st : State) (events : list Event) : State :=
  fold_left (step env) events st.

End LobbyRefresh.

Module LobbyView.

(** The "Direct Challenges" section is rendered: the page is in the
    branch [!incomingNostr ? <NoConnectionAlert /> : ...] that has a
    connection, and there
    [listOfPrivateStartGamesLiveQuery && listOfPrivateStartGamesLiveQuery.length > 0]
    holds.  [incomingNostr] says whether [useIncomingNostrEvents()] gave a
    bus. *)
Definition showsDirectChallenges (incomingNostr : bool)
           (query : option (list GameStartEvent)) : bool :=
  if negb incomingNostr then false
  else match query with
       | Some (_ :: _) => true
       | _ => false
       end.

(** A creation time in seconds lies in the window of a filter, whose dates
    are in milliseconds. *)
Definition in_window (w : LobbyPage.GamesFilter) (e : GameStartEvent) : bool :=
  (LobbyPage.getTime (LobbyPage.from w) <=? created_at e * 1000)
  && (created_at e * 1000 <? LobbyPage.getTime (LobbyPage.until w)).

(** [listOfPrivateStartGamesLiveQuery?.length || 0], the count in the heading. *)
Definition directChallengesCount (query : option (list GameStartEvent)) : nat :=
  match query with
  | Some games => List.length games
  | None => 0%nat
  end.

(** One game was created no later than another. *)
Definition not_after (a b : GameStartEvent) : Prop := created_at a <= created_at b.

End LobbyView.

(** ** More of the game cards *)

Module GameCard.

(** [useState(JesterUtils.gameIdToJesterId(game.id))] *)
Definition jesterId (game : GameStartEvent) : Result JesterId :=
  JesterUtils.gameIdToJesterId (id game).

(** [<Link to={`/game/${jesterId}`}>] *)
Definition link (game : GameStartEvent) : Result string :=
  match jesterId game with
  | Ok j => Ok ("/game/" ++ j)%string
  | Err e => Err e
  end.

(** [new Date(game.created_at * 1_000)], the "Started at" date. *)
Definition startedAt (game : GameStartEvent) : LobbyPage.Date :=
  LobbyPage.mkDate (created_at game * 1000).

End GameCard.

(** ** [AppNavbar.tsx] *)

Module AppNavbar.

(** [useState(false)] *)
Definition initial : bool := false.

(** The toggler's [onClick]: [setOpenMenu(!openMenu)]. *)
Definition onTogglerClick (openMenu : bool) : bool := negb openMenu.

(** The menu after a number of clicks on the toggler. *)
Definition afterClicks (n : nat) : bool := Nat.iter n onTogglerClick initial.

End AppNavbar.

(** ** More of [CreateMultipleGamesButton.tsx]: the button's click handler *)

Module DevButton.

Import CreateMultipleGamesButton.

(** What the component reads: the outgoing event bus (present or not), the
    settings, and the private key of the session (if there is a session
    and it holds one). *)
Record Context : Type := mkContext {
  outgoingNostr : bool;
  settings : Settings.AppSettings;
  sessionPrivateKey : option string
}.

(** [getSession()?.privateKey || null] *)
Definition privateKeyOrNull (ctx : Context) : option string :=
  match sessionPrivateKey ctx with
  | Some key => if LobbyPage.truthy key then Some key else None
  | None => None
  end.

Inductive Outcome : Type :=
| Alerted (message : string)
| Started (run : list Event).

Definition onButtonClicked (ctx : Context) (amount : Z) : Outcome :=
  if negb (outgoingNostr ctx) then Alerted "Nostr EventBus not ready.."
  else match LobbyPage.publicKeyOrNull (settings ctx) with
       | None => Alerted "PubKey not available.."
       | Some _ =>
           match privateKeyOrNull ctx with
           | None => Alerted "PrivKey not available.."
           | Some _ => Started (__dev_createMultipleGames amount)
           end
       end.

(** The game-creation requests a click leads to. *)
Definition requestsOf (outcome : Outcome) : nat :=
  match outcome with
  | Alerted _ => 0%nat
  | Started run => requests run
  end.

(** Everything the handler asks for is there. *)
Definition ready (ctx : Context) : bool :=
  outgoingNostr ctx
  && match LobbyPage.publicKeyOrNull (settings ctx) with Some _ => true | None => false end
  && match privateKeyOrNull ctx with Some _ => true | None => false end.

End DevButton.

(** * Properties *)

(** ** The discovery window *)

Section Window.

Import LobbyPage.

(** C4: for every instant [now] the window of [createGameOverviewFilter]
    has [from = now - D] and [until = now + D] for the configured duration
    [D] (in milliseconds on the [Date]s, in seconds on the query bounds),
    so [from < now < until], and its width is [2 * D] whatever [now] is. *)
Theorem createGameOverviewFilter_window (env : NodeEnv) (now : Date) :
  let D := GAMES_FILTER_PAST_DURATION_IN_SECONDS env in
  let w := createGameOverviewFilter env now in
  getTime (from w) = getTime now - D * 1000 /\
  getTime (until w) = getTime now + D * 1000 /\
  (seconds (from w) == seconds now - inject_Z D)%Q /\
  (seconds (until w) == seconds now + inject_Z D)%Q /\
  getTime (from w) < getTime now < getTime (until w) /\
  getTime (until w) - getTime (from w) = 2 * (D * 1000) /\
  (forall now' : Date,
      let w' := createGameOverviewFilter env now' in
      getTime (until w') - getTime (from w') = getTime (until w) - getTime (from w)).
Proof.
  cbv zeta.
  assert (HD : 0 < GAMES_FILTER_PAST_DURATION_IN_SECONDS env)
    by (destruct env; reflexivity).
  unfold createGameOverviewFilter, seconds; cbn [getTime from until].
  repeat split; try lia.
  - unfold Qeq, Qminus, Qplus, Qopp, inject_Z; cbn [Qnum Qden]. lia.
  - unfold Qeq, Qplus, inject_Z; cbn [Qnum Qden]. lia.
Qed.

(** The configured duration: 300 seconds, 1800 in development mode. *)
Lemma duration_values :
  GAMES_FILTER_PAST_DURATION_IN_SECONDS production = 300 /\
  GAMES_FILTER_PAST_DURATION_IN_SECONDS development = 1800.
Proof. split; reflexivity. Qed.

End Window.

(** ** The store queries *)

Section StoreQueries.

Import LobbyPage.

Lemma insert_created_at_In e x rows :
  In x (Dexie.insert_created_at e rows) <-> x = e \/ In x rows.
Proof.
  induction rows as [|r rows IH]; simpl.
  - intuition.
  - destruct (created_at e <=? created_at r); simpl; rewrite ?IH; intuition.
Qed.

Lemma by_created_at_In x table :
  In x (Dexie.by_created_at table) <-> In x table.
Proof.
  induction table as [|r table IH]; simpl.
  - tauto.
  - rewrite insert_created_at_In, IH. intuition.
Qed.

Lemma in_range_iff lower upper e :
  Dexie.in_range (seconds lower) (seconds upper) e = true <->
  (seconds lower <= inject_Z (created_at e))%Q /\
  (inject_Z (created_at e) < seconds upper)%Q.
Proof.
  unfold Dexie.in_range.
  rewrite andb_true_iff, negb_true_iff, Qle_bool_iff.
  split; intros [H1 H2]; split; trivial.
  - apply Qnot_le_lt. intro H. apply Qle_bool_iff in H. congruence.
  - destruct (Qle_bool _ _) eqn:E; trivial.
    apply Qle_bool_iff in E. exfalso. exact (Qlt_not_le _ _ H2 E).
Qed.

Lemma where_created_at_between_In table lower upper e :
  In e (Dexie.where_created_at_between table (seconds lower) (seconds upper)) <->
  In e table /\
  (seconds lower <= inject_Z (created_at e))%Q /\
  (inject_Z (created_at e) < seconds upper)%Q.
Proof.
  unfold Dexie.where_created_at_between.
  rewrite filter_In, by_created_at_In, in_range_iff. tauto.
Qed.

Lemma In_firstn {A : Type} (n : nat) (l : list A) (x : A) :
  In x (firstn n l) -> In x l.
Proof.
  intro H. rewrite <- (firstn_skipn n l). apply in_or_app. now left.
Qed.

(** The window of the query against the dates of the filter: the filter
    is in milliseconds, [created_at] in seconds. *)
Lemma where_created_at_between_ms table (w : GamesFilter) e :
  In e (Dexie.where_created_at_between table (seconds (from w)) (seconds (until w))) <->
  In e table /\ getTime (from w) <= created_at e * 1000 < getTime (until w).
Proof.
  rewrite where_created_at_between_In.
  unfold seconds, Qle, Qlt, inject_Z. cbn [Qnum Qden].
  split; intros (Hin & H); (split; [exact Hin | lia]).
Qed.

(** C3: the public query returns the first 100 (in the order of the
    [created_at] index) of the stored records whose creation time, in
    seconds, lies in [[from, until)], the dates of the filter being in
    milliseconds: [from <= created_at * 1000 < until].  It never returns
    more than 100, every returned record is stored and in the window, and
    when the window holds at most 100 records the result has exactly the
    records of the window. *)
Theorem listOfStartGamesLiveQuery_window (game_start : Dexie.Table) (w : GamesFilter) :
  let in_window e :=
    getTime (from w) <= created_at e * 1000 < getTime (until w) in
  let matching :=
    Dexie.where_created_at_between game_start (seconds (from w)) (seconds (until w)) in
  let result := listOfStartGamesLiveQuery game_start w in
  result = firstn 100 matching /\
  (forall e, In e matching <-> In e game_start /\ in_window e) /\
  (List.length result <= 100)%nat /\
  (forall e, In e result -> In e game_start /\ in_window e) /\
  ((List.length matching <= 100)%nat ->
   forall e, In e result <-> In e game_start /\ in_window e).
Proof.
  cbv zeta. unfold listOfStartGamesLiveQuery, Dexie.limit, MAX_AMOUNT_OF_GAMES.
  change (Z.to_nat 100) with 100%nat.
  split; [reflexivity|].
  split; [intro e; apply where_created_at_between_ms|].
  split; [apply firstn_le_length|].
  split.
  - intros e H. apply In_firstn in H. now apply where_created_at_between_ms in H.
  - intros Hlen e. rewrite firstn_all2 by exact Hlen.
    apply where_created_at_between_ms.
Qed.

(** The scenario of the spec: with [D = 300] seconds and [now = t0], a
    record created at [t0 + 301] is never returned, and a stored record
    created at [t0 + 299] belongs to the window. *)
Lemma window_scenario_300 (game_start : Dexie.Table) (t0 : Z) (e : GameStartEvent) :
  let w := createGameOverviewFilter production (mkDate (t0 * 1000)) in
  (created_at e = t0 + 301 -> ~ In e (listOfStartGamesLiveQuery game_start w)) /\
  (created_at e = t0 + 299 -> In e game_start ->
   In e (Dexie.where_created_at_between game_start (seconds (from w)) (seconds (until w)))).
Proof.
  cbv zeta. split.
  - intros Hc Hin. apply In_firstn in Hin.
    apply where_created_at_between_In in Hin. destruct Hin as (_ & _ & Hlt).
    unfold seconds, Qlt, inject_Z in Hlt. simpl in Hlt.
    unfold GAMES_FILTER_PAST_DURATION_IN_SECONDS in Hlt. simpl in Hlt. lia.
  - intros Hc Hin. apply where_created_at_between_In. split; [exact Hin|].
    unfold seconds, Qlt, Qle, inject_Z; simpl.
    unfold GAMES_FILTER_PAST_DURATION_IN_SECONDS; simpl. lia.
Qed.

Lemma has_tag_iff tag e :
  Dexie.has_tag tag e = true <-> In tag (event_tags e).
Proof.
  unfold Dexie.has_tag. rewrite existsb_exists. split.
  - intros (x & Hin & Heq). apply String.eqb_eq in Heq. now subst.
  - intro H. exists tag. split; [exact H | apply String.eqb_refl].
Qed.

Section Private.

Variable jesterPrivateStartGameRef : string -> string.

(** C2, as the code has it: without a viewer key the private query yields
    [null]; with a key it yields the first 3, in the store's primary-key
    order, of the stored records that carry the viewer's reference tag;
    no record without that tag is returned, and when at most 3 records
    carry the tag the result has exactly those. *)
Theorem listOfPrivateStartGamesLiveQuery_tagged
        (game_start : Dexie.Table) (pk : string)
        (Href : jesterPrivateStartGameRef pk <> "") :
  let tag := jesterPrivateStartGameRef pk in
  let tagged := Dexie.where_event_tags_equals game_start tag in
  listOfPrivateStartGamesLiveQuery game_start
    (privateStartGameRef jesterPrivateStartGameRef None) = None /\
  listOfPrivateStartGamesLiveQuery game_start
    (privateStartGameRef jesterPrivateStartGameRef (Some pk)) = Some (firstn 3 tagged) /\
  (List.length (firstn 3 tagged) <= 3)%nat /\
  (forall e, In e (firstn 3 tagged) -> In e game_start /\ In tag (event_tags e)) /\
  ((List.length tagged <= 3)%nat ->
   forall e, In e (firstn 3 tagged) <-> In e game_start /\ In tag (event_tags e)).
Proof.
  cbv zeta. unfold listOfPrivateStartGamesLiveQuery, privateStartGameRef,
    truthy, Dexie.limit.
  change (Z.to_nat 3) with 3%nat.
  apply String.eqb_neq in Href. rewrite Href. cbn [negb].
  split; [reflexivity|]. split; [reflexivity|].
  split; [apply firstn_le_length|].
  assert (Hin : forall e,
             In e (Dexie.where_event_tags_equals game_start
                     (jesterPrivateStartGameRef pk)) <->
             In e game_start /\ In (jesterPrivateStartGameRef pk) (event_tags e)).
  { intro e. unfold Dexie.where_event_tags_equals.
    rewrite filter_In, has_tag_iff. tauto. }
  split.
  - intros e H. apply In_firstn in H. now apply Hin.
  - intros Hlen e. rewrite firstn_all2 by exact Hlen. apply Hin.
Qed.

End Private.

Lemma listOfPrivateStartGamesLiveQuery_tagged_witness :
  Scenario.reference_stub "K" <> "" /\
  listOfPrivateStartGamesLiveQuery Scenario.challenges
    (privateStartGameRef Scenario.reference_stub (Some "K"))
  = Some [Scenario.challenge 1 20 "K"; Scenario.challenge 2 10 "K";
          Scenario.challenge 3 30 "K"].
Proof.
  assert (H : Scenario.reference_stub "K" <> "") by discriminate.
  split; [exact H|].
  destruct (listOfPrivateStartGamesLiveQuery_tagged
              Scenario.reference_stub Scenario.challenges "K" H) as (_ & Hq & _).
  exact Hq.
Defined.

(** C2 as stated fails: without a viewer key the query yields [null], not
    an empty sequence, and with a key the three challenges addressed to it
    come back in primary-key order, which here is neither ascending nor
    descending creation time. *)
Lemma private_query_counterexample :
  listOfPrivateStartGamesLiveQuery Scenario.challenges
    (privateStartGameRef Scenario.reference_stub None) <> Some [] /\
  exists result,
    listOfPrivateStartGamesLiveQuery Scenario.challenges
      (privateStartGameRef Scenario.reference_stub (Some "K")) = Some result /\
    Scenario.ascending result = false /\
    Scenario.descending result = false.
Proof.
  split; [discriminate|].
  eexists. split; [reflexivity|]. split; reflexivity.
Qed.

End StoreQueries.

(** ** The development batch creator *)

Section BatchCreator.

Import CreateMultipleGamesButton.

Lemma click_loop_repeat (i amount : Z) :
  click_loop i amount = repeat Click (Z.to_nat (amount - i)).
Proof.
  funelim (click_loop i amount).
  - match goal with IH : click_loop _ _ = repeat _ _ |- _ => rewrite IH end.
    replace (Z.to_nat (amount - i)) with (S (Z.to_nat (amount - (i + 1)))) by lia.
    reflexivity.
  - replace (Z.to_nat (amount - i)) with 0%nat by lia. reflexivity.
Qed.

Lemma chunked_small (amount : Z) :
  amount <= 10 -> chunked amount = repeat Click (Z.to_nat amount).
Proof.
  intro H. unfold chunked, last_chunk, full_chunks.
  assert (Hq : (amount - 1) / 10 <= 0)
    by (apply Z.lt_succ_r, Z.div_lt_upper_bound; lia).
  replace (Z.to_nat ((amount - 1) / 10)) with 0%nat by lia.
  simpl. now rewrite Nat.sub_0_r.
Qed.

Lemma chunked_large (amount : Z) :
  10 < amount -> chunked amount = full_chunk ++ chunked (amount - 10).
Proof.
  intro H. unfold chunked, last_chunk, full_chunks.
  assert (Hq : (amount - 1) / 10 = (amount - 10 - 1) / 10 + 1).
  { replace (amount - 1) with ((amount - 10 - 1) + 1 * 10) by lia.
    now rewrite Z.div_add by lia. }
  assert (Hq0 : 0 <= (amount - 10 - 1) / 10) by (apply Z.div_pos; lia).
  assert (Hq1 : 10 * ((amount - 10 - 1) / 10) <= amount - 10 - 1)
    by (apply Z.mul_div_le; lia).
  rewrite Hq.
  replace (Z.to_nat ((amount - 10 - 1) / 10 + 1))
    with (S (Z.to_nat ((amount - 10 - 1) / 10))) by lia.
  cbn [repeat List.concat]. rewrite <- app_assoc. do 3 f_equal. lia.
Qed.

Lemma dev_createMultipleGames_chunked (amount : Z) :
  __dev_createMultipleGames amount = chunked amount.
Proof.
  funelim (__dev_createMultipleGames amount).
  - rewrite click_loop_repeat, Z.sub_0_r. symmetry. apply chunked_small.
    unfold chunks in *. lia.
  - unfold chunks in *.
    repeat match goal with
           | IH : __dev_createMultipleGames _ = chunked _ |- _ => rewrite IH; clear IH
           end.
    rewrite (chunked_large amount) by lia.
    rewrite (chunked_small 10) by lia.
    unfold full_chunk. rewrite <- app_assoc. reflexivity.
Qed.

Lemma requests_app (l1 l2 : list Event) :
  requests (l1 ++ l2) = (requests l1 + requests l2)%nat.
Proof. unfold requests. now rewrite filter_app, length_app. Qed.

Lemma requests_clicks (n : nat) : requests (repeat Click n) = n.
Proof.
  unfold requests. induction n as [|n IH]; simpl; [reflexivity | now rewrite IH].
Qed.

Lemma requests_full_chunks (q : nat) :
  requests (List.concat (repeat full_chunk q)) = (10 * q)%nat.
Proof.
  induction q as [|q IH]; [reflexivity|].
  cbn [repeat List.concat]. rewrite requests_app, IH.
  change (requests full_chunk) with 10%nat. lia.
Qed.

Lemma bursts_clicks (n c : nat) (rest : list Event) :
  bursts (repeat Click n ++ rest) c = bursts rest (c + n).
Proof.
  revert c. induction n as [|n IH]; intro c; simpl.
  - now rewrite Nat.add_0_r.
  - rewrite IH. f_equal. lia.
Qed.

Lemma bursts_full_chunks (q : nat) (rest : list Event) :
  bursts (List.concat (repeat full_chunk q) ++ rest) 0 = repeat 10%nat q ++ bursts rest 0.
Proof.
  induction q as [|q IH]; [reflexivity|].
  cbn [repeat List.concat]. unfold full_chunk at 1.
  rewrite <- !app_assoc, bursts_clicks. simpl. now rewrite IH.
Qed.

Lemma delays_clicks (n : nat) (rest : list Event) :
  delays (repeat Click n ++ rest) = delays rest.
Proof. induction n as [|n IH]; simpl; trivial. Qed.

Lemma delays_full_chunks (q : nat) (rest : list Event) :
  delays (List.concat (repeat full_chunk q) ++ rest) = repeat 4 q ++ delays rest.
Proof.
  induction q as [|q IH]; [reflexivity|].
  cbn [repeat List.concat]. unfold full_chunk at 1.
  rewrite <- !app_assoc, delays_clicks. simpl. now rewrite IH.
Qed.

Lemma last_chunk_bound (amount : Z) :
  0 <= amount ->
  (last_chunk amount <= 10)%nat /\
  (10 * full_chunks amount + last_chunk amount)%nat = Z.to_nat amount.
Proof.
  intro H. unfold last_chunk, full_chunks.
  destruct (Z.eq_dec amount 0) as [->|Hne];
    [split; [apply Nat.leb_le|]; reflexivity|].
  assert (H0 : 0 <= (amount - 1) / 10) by (apply Z.div_pos; lia).
  assert (H1 : 10 * ((amount - 1) / 10) <= amount - 1) by (apply Z.mul_div_le; lia).
  assert (H2 : amount - 1 < 10 * ((amount - 1) / 10) + 10).
  { pose proof (Z.mod_pos_bound (amount - 1) 10 ltac:(lia)).
    pose proof (Z.div_mod (amount - 1) 10 ltac:(lia)). lia. }
  lia.
Qed.

(** C9: for every amount [N >= 0] the run of [__dev_createMultipleGames]
    is defined (the recursion is well founded) and makes exactly [N]
    game-creation requests, in chunks: every chunk but the last has 10
    requests, the last has at most 10, and every wait between two chunks
    is the same 4 milliseconds. *)
Theorem dev_createMultipleGames_requests (amount : Z) (H : 0 <= amount) :
  let run := __dev_createMultipleGames amount in
  run = chunked amount /\
  Z.of_nat (requests run) = amount /\
  bursts run 0 = repeat 10%nat (full_chunks amount) ++ [last_chunk amount] /\
  (last_chunk amount <= 10)%nat /\
  delays run = repeat 4 (full_chunks amount).
Proof.
  cbv zeta. rewrite dev_createMultipleGames_chunked.
  destruct (last_chunk_bound amount H) as [Hlast Hsum].
  split; [reflexivity|]. unfold chunked.
  split.
  - rewrite requests_app, requests_full_chunks, requests_clicks. lia.
  - split.
    + rewrite bursts_full_chunks.
      rewrite <- (app_nil_r (repeat Click _)), bursts_clicks. reflexivity.
    + split; [exact Hlast|].
      rewrite delays_full_chunks.
      rewrite <- (app_nil_r (repeat Click _)), delays_clicks. simpl.
      apply app_nil_r.
Qed.

Lemma dev_createMultipleGames_requests_witness :
  0 <= 21 /\
  __dev_createMultipleGames 21 = chunked 21 /\
  Z.of_nat (requests (__dev_createMultipleGames 21)) = 21 /\
  bursts (__dev_createMultipleGames 21) 0 = [10; 10; 1]%nat.
Proof.
  assert (H : 0 <= 21) by lia.
  destruct (dev_createMultipleGames_requests 21 H) as (H1 & H2 & H3 & _).
  split; [exact H|]. split; [exact H1|]. split; [exact H2 | exact H3].
Defined.

End BatchCreator.

(** ** The search page *)

Section SearchInput.

Import SearchPage.

Lemma search_empty (st : State) :
  search "" st =
  ({| searchInputValue := searchInputValue st;
      searchResults := Some [];
      inputIsJesterId := inputIsJesterId st |}, None).
Proof. reflexivity. Qed.

(** No validity flag is set while the input is empty. *)
Lemma reachable_empty_input_unflagged (st : State) :
  reachable st -> searchInputValue st = "" -> inputIsJesterId st = None.
Proof.
  induction 1 as [|st a Hst IH]; [reflexivity|].
  destruct a as [value|]; [reflexivity|].
  unfold step, onSearchButtonClicked, search.
  destruct (String.eqb (searchInputValue st) "") eqn:E.
  - apply String.eqb_eq in E. simpl. intros _. now apply IH.
  - apply String.eqb_neq in E.
    destruct (_ <? 0); [simpl; congruence|].
    destruct (JesterUtils.tryParseJesterId _); simpl; congruence.
Qed.

(** C10: a search with an empty input sets the result list to the empty
    list, navigates nowhere and leaves the validity flag as it was, which
    on the page is [null]; any change of the input resets both the results
    and the flag to [null]. *)
Theorem search_empty_input :
  (forall st, fst (search "" st) = setSearchResults (Some []) st /\
              snd (search "" st) = None /\
              inputIsJesterId (fst (search "" st)) = inputIsJesterId st) /\
  (forall st, reachable st -> searchInputValue st = "" ->
              searchResults (fst (onSearchButtonClicked st)) = Some [] /\
              inputIsJesterId (fst (onSearchButtonClicked st)) = None /\
              snd (onSearchButtonClicked st) = None) /\
  (forall value st,
      searchInputValue (onSearchInputChange value st) = value /\
      searchResults (onSearchInputChange value st) = None /\
      inputIsJesterId (onSearchInputChange value st) = None).
Proof.
  split; [|split].
  - intro st. rewrite search_empty. repeat split.
  - intros st Hr He. unfold onSearchButtonClicked. rewrite He, search_empty.
    cbn [fst snd searchResults inputIsJesterId].
    repeat split. now apply reachable_empty_input_unflagged.
  - intros value st. repeat split.
Qed.

End SearchInput.

(** ** The identifier codec *)

Section BitGroups.

Import Digits Bech32m.

Lemma BEacc_snoc base acc l d :
  BEacc base acc (l ++ [d]) = BEacc base acc l * base + d.
Proof. unfold BEacc. now rewrite fold_left_app. Qed.

Lemma BE_snoc base l d : BE base (l ++ [d]) = BE base l * base + d.
Proof. apply BEacc_snoc. Qed.

Lemma BE_nonneg k l : 0 <= k -> Forall (digit k) l -> 0 <= BE (2 ^ k) l.
Proof.
  intros Hk. induction l as [|d l IH] using rev_ind; intro H.
  - reflexivity.
  - apply Forall_app in H. destruct H as [Hl Hd]. inversion_clear Hd.
    rewrite BE_snoc. specialize (IH Hl). unfold digit in *.
    assert (0 < 2 ^ k) by (apply Z.pow_pos_nonneg; lia). nia.
Qed.

(** Digit lists of the same length that write the same number are equal. *)
Lemma BE_inj k l1 : 0 <= k ->
  forall l2, List.length l1 = List.length l2 ->
  Forall (digit k) l1 -> Forall (digit k) l2 ->
  BE (2 ^ k) l1 = BE (2 ^ k) l2 -> l1 = l2.
Proof.
  intros Hk. assert (Hp : 0 < 2 ^ k) by (apply Z.pow_pos_nonneg; lia).
  induction l1 as [|d1 l1 IH] using rev_ind; intros l2 Hlen H1 H2 Heq.
  - destruct l2; [reflexivity | discriminate].
  - destruct l2 as [|d2 l2 _] using rev_ind.
    + rewrite length_app in Hlen. simpl in Hlen. lia.
    + rewrite !length_app in Hlen. simpl in Hlen.
      apply Forall_app in H1, H2. destruct H1 as [H1 Hd1], H2 as [H2 Hd2].
      inversion_clear Hd1. inversion_clear Hd2. unfold digit in *.
      rewrite !BE_snoc in Heq.
      assert (Hq : BE (2 ^ k) l1 = BE (2 ^ k) l2) by nia.
      assert (d1 = d2) by nia. subst d2.
      f_equal. apply IH; trivial. lia.
Qed.

Lemma lor_shiftl_digit v k d :
  0 <= k -> digit k d -> Z.lor (Z.shiftl v k) d = v * 2 ^ k + d.
Proof.
  intros Hk [Hd0 Hd1].
  rewrite <- Z.lxor_lor, <- Z.add_nocarry_lxor, Z.shiftl_mul_pow2; trivial.
  all: apply Z.bits_inj'; intros n Hn; rewrite Z.land_spec, Z.bits_0.
  all: destruct (Z.lt_ge_cases n k) as [Hlt|Hge].
  all: try (rewrite Z.shiftl_spec_low by trivial; reflexivity).
  all: rewrite andb_comm.
  all: destruct (Z.eq_dec d 0) as [->|Hne]; [now rewrite Z.bits_0|].
  all: rewrite Z.bits_above_log2; trivial.
  all: apply Z.lt_le_trans with k; trivial; apply Z.log2_lt_pow2; lia.
Qed.

Lemma maxV_ones k : 0 <= k -> Z.shiftl 1 k - 1 = Z.ones k.
Proof.
  intro Hk. rewrite Z.ones_equiv, Z.shiftl_mul_pow2 by trivial. lia.
Qed.

Lemma land_maxV v k : 0 <= k -> Z.land v (Z.shiftl 1 k - 1) = v mod 2 ^ k.
Proof. intro Hk. rewrite maxV_ones by trivial. now apply Z.land_ones. Qed.

Section Convert.

Variables inBits outBits : Z.
Hypothesis HinBits : 0 < inBits.
Hypothesis HoutBits : 0 < outBits.

Local Abbreviation maxV := (Z.shiftl 1 outBits - 1).
Local Abbreviation pushed := (Digits.pushed outBits).

Lemma drain_spec fuel value bits result :
  (Z.to_nat bits <= fuel)%nat ->
  pushed value bits result ->
  exists bits' result',
    drain fuel outBits maxV value bits result = (bits', result') /\
    pushed value bits' result' /\ bits' < outBits /\
    outBits * Z.of_nat (List.length result') + bits'
    = outBits * Z.of_nat (List.length result) + bits.
Proof.
  revert bits result.
  induction fuel as [|fuel IH]; intros bits result Hfuel (Hv & Hb & Hd & Hbe).
  - exists bits, result. simpl. repeat split; trivial; lia.
  - simpl. destruct (bits >=? outBits) eqn:E.
    + apply Z.geb_le in E.
      set (w := Z.land (Z.shiftr value (bits - outBits)) maxV).
      assert (Hw : w = (value / 2 ^ (bits - outBits)) mod 2 ^ outBits).
      { unfold w. rewrite land_maxV, Z.shiftr_div_pow2 by lia. reflexivity. }
      assert (Hp : 0 < 2 ^ outBits) by (apply Z.pow_pos_nonneg; lia).
      assert (Hp' : 0 < 2 ^ (bits - outBits)) by (apply Z.pow_pos_nonneg; lia).
      destruct (IH (bits - outBits) (result ++ [w])) as (b' & r' & Hrun & Hpush & Hlt & Hcnt).
      * lia.
      * repeat split; trivial; try lia.
        -- apply Forall_app. split; trivial. constructor; [|constructor].
           unfold digit. rewrite Hw. apply Z.mod_pos_bound. exact Hp.
        -- rewrite BE_snoc, Hbe, Hw.
           replace bits with ((bits - outBits) + outBits) at 1 by lia.
           rewrite Z.pow_add_r by lia.
           rewrite <- Z.div_div by lia.
           rewrite (Z.div_mod (value / 2 ^ (bits - outBits)) (2 ^ outBits)) at 3 by lia.
           lia.
      * exists b', r'. split; [exact Hrun|]. split; [exact Hpush|].
        split; [exact Hlt|].
        rewrite Hcnt, length_app. cbn [List.length]. lia.
    + rewrite Z.geb_leb in E. apply Z.leb_gt in E.
      exists bits, result. repeat split; trivial.
Qed.

Lemma convert_loop_spec data : Forall (digit inBits) data ->
  forall value bits result,
  pushed value bits result -> bits < outBits ->
  exists bits' result',
    convert_loop data inBits outBits maxV value bits result
    = (BEacc (2 ^ inBits) value data, bits', result') /\
    pushed (BEacc (2 ^ inBits) value data) bits' result' /\ bits' < outBits /\
    outBits * Z.of_nat (List.length result') + bits'
    = outBits * Z.of_nat (List.length result) + bits
      + inBits * Z.of_nat (List.length data).
Proof.
  induction 1 as [|d data Hd Hdata IH]; intros value bits result Hpush Hlt.
  - exists bits, result. cbn [convert_loop BEacc fold_left List.length Z.of_nat].
    rewrite Z.mul_0_r, Z.add_0_r. repeat split; trivial; apply Hpush.
  - destruct Hpush as (Hv & Hb & Hr & Hbe).
    cbn [convert_loop].
    rewrite (lor_shiftl_digit value inBits d) by (trivial; lia).
    assert (Hp : 0 < 2 ^ inBits) by (apply Z.pow_pos_nonneg; lia).
    assert (Hpb : 0 < 2 ^ bits) by (apply Z.pow_pos_nonneg; lia).
    set (value' := value * 2 ^ inBits + d).
    assert (Hpush' : pushed value' (bits + inBits) result).
    { unfold digit in Hd. repeat split; trivial; try (unfold value'; nia).
      rewrite Hbe. unfold value'.
      rewrite Z.add_comm with (n := bits), Z.pow_add_r, <- Z.div_div by lia.
      rewrite Z.div_add_l, (Z.div_small d) by lia. f_equal. lia. }
    destruct (drain_spec (Z.to_nat (bits + inBits)) value' (bits + inBits) result)
      as (b1 & r1 & Hrun & Hpush1 & Hlt1 & Hcnt1); trivial.
    rewrite Hrun.
    destruct (IH value' b1 r1 Hpush1 Hlt1) as (b2 & r2 & Hrun2 & Hpush2 & Hlt2 & Hcnt2).
    exists b2, r2. repeat split; try apply Hpush2; trivial.
    rewrite Hcnt2, Hcnt1. cbn [List.length]. lia.
Qed.

End Convert.

Lemma pushed_start outBits : pushed outBits 0 0 [].
Proof. repeat split; trivial; lia. Qed.

(** [toWords] regroups the bits of the bytes in fives, with [pad] zero
    bits at the end. *)
Lemma toWords_spec bytes : Forall (digit 8) bytes ->
  exists words pad,
    toWords bytes = Ok words /\ Forall (digit 5) words /\ 0 <= pad < 5 /\
    5 * Z.of_nat (List.length words) = 8 * Z.of_nat (List.length bytes) + pad /\
    BE (2 ^ 5) words = BE (2 ^ 8) bytes * 2 ^ pad.
Proof.
  intro Hbytes. unfold toWords, convert.
  destruct (convert_loop_spec 8 5 ltac:(lia) ltac:(lia) bytes Hbytes 0 0 []
              (pushed_start 5) ltac:(lia))
    as (b & r & Hrun & (Hv & Hb & Hr & Hbe) & Hlt & Hcnt).
  rewrite Hrun. fold (BE (2 ^ 8) bytes) in *.
  set (V := BE (2 ^ 8) bytes) in *.
  cbn [List.length Z.of_nat] in Hcnt.
  destruct (b >? 0) eqn:E.
  - apply Z.gtb_lt in E.
    exists (r ++ [Z.land (Z.shiftl V (5 - b)) (Z.shiftl 1 5 - 1)]), (5 - b).
    rewrite land_maxV, Z.shiftl_mul_pow2 by lia.
    assert (Hp : 0 < 2 ^ 5) by reflexivity.
    split; [reflexivity|]. split; [|split; [lia|split]].
    + apply Forall_app. split; trivial. constructor; [|constructor].
      apply Z.mod_pos_bound. exact Hp.
    + rewrite length_app. cbn [List.length]. lia.
    + rewrite BE_snoc, Hbe.
      assert (H5 : 2 ^ 5 = 2 ^ b * 2 ^ (5 - b))
        by (rewrite <- Z.pow_add_r by lia; f_equal; lia).
      assert (Hq : V / 2 ^ b = V * 2 ^ (5 - b) / 2 ^ 5).
      { rewrite H5. rewrite Z.div_mul_cancel_r; trivial.
        all: apply Z.pow_nonzero; lia. }
      rewrite Hq.
      rewrite (Z.div_mod (V * 2 ^ (5 - b)) (2 ^ 5)) at 3 by lia. lia.
  - rewrite Z.gtb_ltb in E. apply Z.ltb_ge in E.
    assert (b = 0) by lia. subst b.
    exists r, 0. split; [reflexivity|]. split; [exact Hr|]. split; [lia|].
    split; [lia|]. rewrite Hbe. change (2 ^ 0) with 1. rewrite Z.div_1_r. lia.
Qed.

(** [fromWords] undoes it. *)
Lemma fromWords_spec bytes words pad :
  Forall (digit 8) bytes -> Forall (digit 5) words -> 0 <= pad < 5 ->
  5 * Z.of_nat (List.length words) = 8 * Z.of_nat (List.length bytes) + pad ->
  BE (2 ^ 5) words = BE (2 ^ 8) bytes * 2 ^ pad ->
  fromWords words = Ok bytes.
Proof.
  intros Hbytes Hwords Hpad Hlen Heq. unfold fromWords, convert.
  destruct (convert_loop_spec 5 8 ltac:(lia) ltac:(lia) words Hwords 0 0 []
              (pushed_start 8) ltac:(lia))
    as (b & r & Hrun & (Hv & Hb & Hr & Hbe) & Hlt & Hcnt).
  rewrite Hrun. fold (BE (2 ^ 5) words) in *.
  cbn [List.length Z.of_nat] in Hcnt.
  assert (b = pad) by lia. subst b.
  assert (Hn : List.length r = List.length bytes) by lia.
  set (V := BE (2 ^ 8) bytes) in *.
  assert (Hpp : 0 < 2 ^ pad) by (apply Z.pow_pos_nonneg; lia).
  replace (pad >=? 5) with false by (symmetry; rewrite Z.geb_leb; apply Z.leb_gt; lia).
  rewrite land_maxV, Z.shiftl_mul_pow2 by lia.
  rewrite Heq.
  replace (V * 2 ^ pad * 2 ^ (8 - pad)) with (V * 2 ^ 8)
    by (rewrite <- Z.mul_assoc, <- Z.pow_add_r by lia; do 2 f_equal; lia).
  rewrite Z.mod_mul by (apply Z.pow_nonzero; lia).
  cbn [Z.eqb negb]. f_equal.
  apply (BE_inj 8); trivial; [lia|].
  rewrite Hbe, Heq. apply Z.div_mul. lia.
Qed.

Lemma fromWords_toWords bytes : Forall (digit 8) bytes ->
  exists words,
    toWords bytes = Ok words /\ Forall (digit 5) words /\
    8 * Z.of_nat (List.length bytes) <= 5 * Z.of_nat (List.length words)
      < 8 * Z.of_nat (List.length bytes) + 5 /\
    fromWords words = Ok bytes.
Proof.
  intro Hbytes.
  destruct (toWords_spec bytes Hbytes) as (words & pad & Hto & Hw & Hpad & Hlen & Heq).
  exists words. split; [exact Hto|]. split; [exact Hw|]. split; [lia|].
  now apply (fromWords_spec bytes words pad).
Qed.

End BitGroups.

Section Checksum.

Import Digits Bech32m.

Lemma lxor_interchange x u y v :
  Z.lxor (Z.lxor x u) (Z.lxor y v) = Z.lxor (Z.lxor x y) (Z.lxor u v).
Proof.
  rewrite !Z.lxor_assoc. f_equal. rewrite <- !Z.lxor_assoc. f_equal.
  apply Z.lxor_comm.
Qed.

Lemma land_lxor_l a b m : Z.land (Z.lxor a b) m = Z.lxor (Z.land a m) (Z.land b m).
Proof.
  apply Z.bits_inj'. intros n _.
  rewrite Z.lxor_spec, !Z.land_spec, Z.lxor_spec.
  now destruct (Z.testbit a n), (Z.testbit b n), (Z.testbit m n).
Qed.

Lemma lxor_bound n x y :
  0 <= x < 2 ^ n -> 0 <= y < 2 ^ n -> 0 <= Z.lxor x y < 2 ^ n.
Proof.
  intros [Hx0 Hx1] [Hy0 Hy1].
  assert (H0 : 0 <= Z.lxor x y) by (apply Z.lxor_nonneg; tauto).
  split; [exact H0|].
  destruct (Z.eq_dec (Z.lxor x y) 0) as [->|Hne]; [lia|].
  assert (Hn : 0 < n).
  { destruct (Z.lt_ge_cases 0 n) as [Hn|Hn]; [exact Hn|]. exfalso.
    destruct (Z.eq_dec n 0) as [->|Hn0].
    - change (2 ^ 0) with 1 in *. assert (x = 0) by lia. assert (y = 0) by lia.
      subst. now apply Hne.
    - rewrite Z.pow_neg_r in Hx1; lia. }
  apply Z.log2_lt_pow2; [lia|].
  pose proof (Z.log2_lxor x y Hx0 Hy0) as Hl.
  assert (Z.log2 x < n).
  { destruct (Z.eq_dec x 0) as [->|Hx]; [exact Hn | apply Z.log2_lt_pow2; lia]. }
  assert (Z.log2 y < n).
  { destruct (Z.eq_dec y 0) as [->|Hy]; [exact Hn | apply Z.log2_lt_pow2; lia]. }
  lia.
Qed.

Lemma lxor_shiftl_digit v k d :
  0 <= k -> digit k d -> Z.lxor (v * 2 ^ k) d = v * 2 ^ k + d.
Proof.
  intros Hk Hd. rewrite <- (lor_shiftl_digit v k d Hk Hd).
  rewrite <- Z.shiftl_mul_pow2 by trivial.
  apply Z.lxor_lor.
  pose proof (lor_shiftl_digit v k d Hk Hd) as Hlor.
  pose proof (Z.add_lor_land (Z.shiftl v k) d) as Hadd.
  rewrite Z.shiftl_mul_pow2 in * by trivial. lia.
Qed.

(** The generator term is the generator when bit [i] of [b] is set. *)
Lemma gen_spec b i g : 0 <= i ->
  gen b i g = if Z.testbit b i then g else 0.
Proof.
  intro Hi. unfold gen.
  change 1 with (Z.ones 1) at 1. rewrite Z.land_ones by lia.
  change (2 ^ 1) with 2. rewrite <- Z.bit0_mod, Z.shiftr_spec by lia.
  rewrite Z.add_0_l. destruct (Z.testbit b i); cbn [Z.b2z Z.opp].
  - apply Z.land_m1_l.
  - apply Z.land_0_l.
Qed.

Lemma gen_lxor a b i g : 0 <= i ->
  gen (Z.lxor a b) i g = Z.lxor (gen a i g) (gen b i g).
Proof.
  intro Hi. rewrite !gen_spec, Z.lxor_spec by trivial.
  destruct (Z.testbit a i), (Z.testbit b i); cbn [xorb].
  - now rewrite Z.lxor_nilpotent.
  - now rewrite Z.lxor_0_r.
  - now rewrite Z.lxor_0_l.
  - reflexivity.
Qed.

Lemma gen_range b i g n : 0 <= i -> 0 <= g < 2 ^ n -> 0 <= gen b i g < 2 ^ n.
Proof.
  intros Hi Hg. rewrite gen_spec by trivial.
  destruct (Z.testbit b i); lia.
Qed.

(** The checksum step is linear over exclusive or. *)
Lemma polymodStep_lxor a b :
  polymodStep (Z.lxor a b) = Z.lxor (polymodStep a) (polymodStep b).
Proof.
  unfold polymodStep. cbv zeta.
  rewrite Z.shiftr_lxor, land_lxor_l, Z.shiftl_lxor, !gen_lxor by lia.
  repeat (rewrite (lxor_interchange _ (gen (Z.shiftr a 25) _ _)); f_equal).
Qed.

Lemma polymodStep_range a : 0 <= polymodStep a < 2 ^ 30.
Proof.
  unfold polymodStep. cbv zeta.
  repeat apply lxor_bound; try (apply gen_range; [lia | split; [lia | reflexivity]]).
  change 0x1ffffff with (Z.ones 25). rewrite Z.land_ones, Z.shiftl_mul_pow2 by lia.
  pose proof (Z.mod_pos_bound a (2 ^ 25) ltac:(reflexivity)) as H.
  change (2 ^ 30) with (2 ^ 25 * 2 ^ 5). change (2 ^ 5) with 32 in *. lia.
Qed.

Lemma polymodStep_small v : 0 <= v < 2 ^ 25 -> polymodStep v = v * 32.
Proof.
  intro Hv. unfold polymodStep. cbv zeta.
  rewrite (Z.shiftr_div_pow2 v 25), (Z.div_small v) by lia.
  change 0x1ffffff with (Z.ones 25).
  rewrite Z.land_ones, Z.mod_small, Z.shiftl_mul_pow2 by lia.
  change (gen 0 0 _) with 0. change (gen 0 1 _) with 0. change (gen 0 2 _) with 0.
  change (gen 0 3 _) with 0. change (gen 0 4 _) with 0.
  now rewrite !Z.lxor_0_r.
Qed.

Lemma iter_polymodStep_lxor n a b :
  Nat.iter n polymodStep (Z.lxor a b)
  = Z.lxor (Nat.iter n polymodStep a) (Nat.iter n polymodStep b).
Proof.
  induction n as [|n IH]; [reflexivity|].
  rewrite !Nat.iter_succ. now rewrite IH, polymodStep_lxor.
Qed.

Lemma iter_polymodStep_succ n a :
  Nat.iter (S n) polymodStep a = Nat.iter n polymodStep (polymodStep a).
Proof. apply Nat.iter_succ_r. Qed.

(** The state after [words] splits into what the start contributes and
    what the words contribute. *)
Lemma polymod_split words : forall chk,
  polymod chk words
  = Z.lxor (Nat.iter (List.length words) polymodStep chk) (polymod 0 words).
Proof.
  induction words as [|w words IH]; intro chk.
  - cbn. now rewrite Z.lxor_0_r.
  - change (polymod chk (w :: words))
      with (polymod (Z.lxor (polymodStep chk) w) words).
    change (polymod 0 (w :: words))
      with (polymod (Z.lxor (polymodStep 0) w) words).
    rewrite (IH (Z.lxor (polymodStep chk) w)), (IH (Z.lxor (polymodStep 0) w)).
    rewrite !iter_polymodStep_lxor.
    change (polymodStep 0) with 0.
    replace (Nat.iter (List.length words) polymodStep 0) with 0.
    + cbn [List.length]. rewrite iter_polymodStep_succ, Z.lxor_0_l.
      now rewrite Z.lxor_assoc.
    + clear. induction (List.length words) as [|n IHn]; [reflexivity|].
      rewrite Nat.iter_succ. now rewrite <- IHn.
Qed.

Lemma polymod_app chk ws1 ws2 :
  polymod chk (ws1 ++ ws2) = polymod (polymod chk ws1) ws2.
Proof. apply fold_left_app. Qed.

Lemma checksum_words_digits m : Forall (digit 5) (checksum_words m).
Proof.
  unfold checksum_words. cbn [map].
  repeat constructor; change 0x1f with (Z.ones 5); rewrite Z.land_ones by lia;
    apply Z.mod_pos_bound; reflexivity.
Qed.

(** Six 5-bit words, fed from state 0, spell the 30-bit number they are
    the digits of. *)
Lemma polymod_checksum_words m : 0 <= m < 2 ^ 30 ->
  polymod 0 (checksum_words m) = m.
Proof.
  intro Hm. unfold checksum_words, polymod. cbn [map fold_left].
  change ((5 - 0) * 5) with 25. change ((5 - 1) * 5) with 20.
  change ((5 - 2) * 5) with 15. change ((5 - 3) * 5) with 10.
  change ((5 - 4) * 5) with 5. change ((5 - 5) * 5) with 0.
  change 0x1f with (Z.ones 5). rewrite !Z.land_ones, !Z.shiftr_div_pow2 by lia.
  change (polymodStep 0) with 0. rewrite Z.lxor_0_l.
  change (2 ^ 30) with 1073741824 in Hm.
  change (2 ^ 25) with 33554432. change (2 ^ 20) with 1048576.
  change (2 ^ 15) with 32768. change (2 ^ 10) with 1024.
  change (2 ^ 5) with 32. change (2 ^ 0) with 1.
  set (c0 := (m / 33554432) mod 32). set (c1 := (m / 1048576) mod 32).
  set (c2 := (m / 32768) mod 32). set (c3 := (m / 1024) mod 32).
  set (c4 := (m / 32) mod 32). set (c5 := (m / 1) mod 32).
  assert (H0 : 0 <= c0 < 32) by (apply Z.mod_pos_bound; lia).
  assert (H1 : 0 <= c1 < 32) by (apply Z.mod_pos_bound; lia).
  assert (H2 : 0 <= c2 < 32) by (apply Z.mod_pos_bound; lia).
  assert (H3 : 0 <= c3 < 32) by (apply Z.mod_pos_bound; lia).
  assert (H4 : 0 <= c4 < 32) by (apply Z.mod_pos_bound; lia).
  assert (H5 : 0 <= c5 < 32) by (apply Z.mod_pos_bound; lia).
  assert (Hstep : forall v d, 0 <= v < 2 ^ 25 -> 0 <= d < 32 ->
                          Z.lxor (polymodStep v) d = v * 32 + d).
  { intros v d Hv Hd. rewrite polymodStep_small by exact Hv.
    apply (lxor_shiftl_digit v 5 d); [lia | exact Hd]. }
  change (2 ^ 25) with 33554432 in Hstep.
  rewrite (Hstep c0 c1) by lia.
  rewrite (Hstep _ c2) by lia.
  rewrite (Hstep _ c3) by lia.
  rewrite (Hstep _ c4) by lia.
  rewrite (Hstep _ c5) by lia.
  subst c0 c1 c2 c3 c4 c5.
  clear Hstep H0 H1 H2 H3 H4 H5.
  Z.to_euclidean_division_equations. lia.
Qed.

(** The checksum that [encode] appends makes the final state the
    encoding constant. *)
Lemma checksum_verifies chk :
  polymod chk (checksum_words (Z.lxor (Nat.iter 6 polymodStep chk) ENCODING_CONST))
  = ENCODING_CONST.
Proof.
  set (m := Z.lxor (Nat.iter 6 polymodStep chk) ENCODING_CONST).
  rewrite polymod_split.
  change (List.length (checksum_words m)) with 6%nat.
  rewrite polymod_checksum_words.
  - unfold m. rewrite <- Z.lxor_assoc, Z.lxor_nilpotent. apply Z.lxor_0_l.
  - unfold m. apply lxor_bound.
    + rewrite Nat.iter_succ. apply polymodStep_range.
    + split; [|reflexivity]. unfold ENCODING_CONST. lia.
Qed.

End Checksum.

Section Characters.

Import Digits Bech32m.

Lemma append_assoc (a b c : string) : ((a ++ b) ++ c = a ++ (b ++ c))%string.
Proof. induction a as [|x a IH]; simpl; [reflexivity | now rewrite IH]. Qed.

Lemma append_nil_r (a : string) : (a ++ "")%string = a.
Proof. induction a as [|x a IH]; simpl; [reflexivity | now rewrite IH]. Qed.

Lemma length_append (a b : string) :
  String.length (a ++ b) = (String.length a + String.length b)%nat.
Proof. induction a as [|x a IH]; simpl; [reflexivity | now rewrite IH]. Qed.

(** Every 5-bit word has its character, which the reverse table maps
    back; the character is lower case and is not the separator. *)
Lemma alphabet_char x : digit 5 x ->
  exists c, Js.charAt ALPHABET x = String c "" /\
            ALPHABET_MAP c = Some x /\
            Js.lowerChar c = c /\
            Ascii.eqb c "1" = false.
Proof.
  intros [H0 H1]. change (2 ^ 5) with 32 in H1.
  assert (Hx : x = Z.of_nat (Z.to_nat x)) by lia.
  assert (Hn : (Z.to_nat x < 32)%nat) by lia.
  revert Hx Hn. generalize (Z.to_nat x). intros n -> Hn. clear H0 H1.
  do 32 (destruct n as [|n]; [eexists; repeat split; reflexivity|]).
  lia.
Qed.

Lemma chars_cons x words : digit 5 x ->
  exists c, chars (x :: words) = String c (chars words) /\
            ALPHABET_MAP c = Some x /\
            Js.lowerChar c = c /\
            Ascii.eqb c "1" = false.
Proof.
  intro Hx. destruct (alphabet_char x Hx) as (c & Hc & Hmap & Hlow & Hsep).
  exists c. cbn [chars]. rewrite Hc. repeat split; trivial.
Qed.

Lemma chars_app ws1 ws2 : chars (ws1 ++ ws2) = (chars ws1 ++ chars ws2)%string.
Proof.
  induction ws1 as [|x ws1 IH]; [reflexivity|].
  cbn [chars app]. now rewrite IH, append_assoc.
Qed.

Lemma chars_length words : Forall (digit 5) words ->
  String.length (chars words) = List.length words.
Proof.
  induction 1 as [|x words Hx Hwords IH]; [reflexivity|].
  destruct (chars_cons x words Hx) as (c & -> & _). simpl. now rewrite IH.
Qed.

Lemma chars_lower words : Forall (digit 5) words ->
  Js.toLowerCase (chars words) = chars words.
Proof.
  induction 1 as [|x words Hx Hwords IH]; [reflexivity|].
  destruct (chars_cons x words Hx) as (c & -> & _ & Hlow & _).
  unfold Js.toLowerCase in *. cbn [Js.mapChars]. now rewrite IH, Hlow.
Qed.

Lemma chars_no_separator words : Forall (digit 5) words ->
  forall i, Js.lastIndexOf_from (chars words) "1" i = -1.
Proof.
  induction 1 as [|x words Hx Hwords IH]; intro i; [reflexivity|].
  destruct (chars_cons x words Hx) as (c & -> & _ & _ & Hsep).
  cbn [Js.lastIndexOf_from]. rewrite IH, Hsep. reflexivity.
Qed.

Lemma encode_words_spec words : Forall (digit 5) words ->
  forall chk result,
    encode_words words chk result
    = Ok (polymod chk words, (result ++ chars words)%string).
Proof.
  induction 1 as [|x words Hx Hwords IH]; intros chk result.
  - cbn. now rewrite append_nil_r.
  - cbn [encode_words].
    assert (Hs : Z.shiftr x 5 = 0).
    { rewrite Z.shiftr_div_pow2 by lia. apply Z.div_small. exact Hx. }
    rewrite Hs. cbn [Z.eqb negb]. rewrite IH. cbn [chars].
    now rewrite append_assoc.
Qed.

Lemma encode_checksum_spec chk result :
  encode_checksum 6 0 chk result = (result ++ chars (checksum_words chk))%string.
Proof.
  unfold checksum_words. cbn [encode_checksum map chars Z.add Pos.add Pos.succ].
  now rewrite append_nil_r, !append_assoc.
Qed.

(** The last six characters only feed the checksum. *)
Lemma decode_loop_tail cs : Forall (digit 5) cs ->
  forall i len chk words, len <= i + 6 ->
    decode_loop (chars cs) i len chk words = Ok (polymod chk cs, words).
Proof.
  induction 1 as [|x cs Hx Hcs IH]; intros i len chk words Hi; [reflexivity|].
  destruct (chars_cons x cs Hx) as (c & -> & Hmap & _).
  cbn [decode_loop]. rewrite Hmap.
  replace (i + 6 >=? len) with true by (symmetry; apply Z.geb_le; lia).
  rewrite IH by lia. reflexivity.
Qed.

Lemma decode_loop_spec ws : Forall (digit 5) ws ->
  forall cs, Forall (digit 5) cs ->
  forall i len chk words, len = i + Z.of_nat (List.length ws) + 6 ->
    decode_loop (chars (ws ++ cs)) i len chk words
    = Ok (polymod chk (ws ++ cs), words ++ ws).
Proof.
  induction 1 as [|x ws Hx Hws IH]; intros cs Hcs i len chk words Hlen.
  - cbn [app]. rewrite app_nil_r. apply decode_loop_tail; trivial.
    cbn [List.length Z.of_nat] in Hlen. lia.
  - cbn [app]. destruct (chars_cons x (ws ++ cs) Hx) as (c & -> & Hmap & _).
    cbn [decode_loop]. rewrite Hmap.
    cbn [List.length] in Hlen.
    replace (i + 6 >=? len) with false
      by (symmetry; rewrite Z.geb_leb; apply Z.leb_gt; lia).
    rewrite (IH cs Hcs) by lia.
    rewrite <- app_assoc. reflexivity.
Qed.

End Characters.

Section RoundTrip.

Import Digits Bech32m JesterUtils.

Lemma prefixChk_jester : exists chk, prefixChk "jester" = Some chk.
Proof. eexists. reflexivity. Qed.

(** Decoding the prefix, the separator and a body of alphabet characters
    whose checksum state ends on the encoding constant. *)
Lemma decode_body (body : string) (words : list Z) (n : nat) (chk : Z) :
  String.length body = n -> (6 <= n <= 83)%nat ->
  Js.toLowerCase body = body ->
  (forall i, Js.lastIndexOf_from body "1" i = -1) ->
  prefixChk "jester" = Some chk ->
  decode_loop body 0 (Z.of_nat n) chk [] = Ok (ENCODING_CONST, words) ->
  decode ("jester1" ++ body) = Ok ("jester", words).
Proof.
  intros Hlen Hn Hlow Hsep Hchk Hloop. unfold decode.
  assert (Hl : Js.length ("jester1" ++ body) = 7 + Z.of_nat n).
  { unfold Js.length. rewrite length_append, Hlen.
    change (String.length "jester1") with 7%nat. lia. }
  rewrite Hl.
  replace (7 + Z.of_nat n <? 8) with false by (symmetry; apply Z.ltb_ge; lia).
  replace (7 + Z.of_nat n >? LIMIT) with false
    by (symmetry; rewrite Z.gtb_ltb; apply Z.ltb_ge; unfold LIMIT; lia).
  assert (Hlower : Js.toLowerCase ("jester1" ++ body) = ("jester1" ++ body)%string).
  { unfold Js.toLowerCase in *. cbn. now rewrite Hlow. }
  rewrite Hlower, String.eqb_refl. cbn [negb andb].
  assert (Hsplit : Js.lastIndexOf ("jester1" ++ body) "1" = 6).
  { unfold Js.lastIndexOf. cbn. rewrite Hsep. reflexivity. }
  rewrite Hsplit. cbn [Z.eqb Pos.eqb].
  change (Js.slice ("jester1" ++ body) 0 6) with "jester".
  change (Js.slice_from ("jester1" ++ body) (6 + 1)) with body.
  unfold Js.length at 1. rewrite Hlen.
  replace (Z.of_nat n <? 6) with false by (symmetry; apply Z.ltb_ge; lia).
  rewrite Hchk. unfold Js.length. rewrite Hlen, Hloop.
  rewrite Z.eqb_refl. reflexivity.
Qed.

(** The round trip of the codec on the bytes of a game id. *)
Lemma codec_roundtrip (x : RawGameId) : valid_RawGameId x ->
  exists jesterId,
    gameIdToJesterId x = Ok jesterId /\
    jesterIdToGameId jesterId = Ok x /\
    Js.startsWith jesterId (JESTER_ID_PREFIX ++ "1") = true /\
    String.length jesterId = 65%nat.
Proof.
  intros [Hlen Hbytes].
  destruct (fromWords_toWords x Hbytes) as (words & Hto & Hw & Hk & Hfrom).
  assert (Hk52 : List.length words = 52%nat) by lia.
  destruct prefixChk_jester as (chk & Hchk).
  set (m := Z.lxor (Nat.iter 6 polymodStep (polymod chk words)) ENCODING_CONST).
  set (body := chars (words ++ checksum_words m)).
  assert (Hall : Forall (digit 5) (words ++ checksum_words m))
    by (apply Forall_app; split; [exact Hw | apply checksum_words_digits]).
  assert (Hbody : String.length body = 58%nat).
  { unfold body. rewrite chars_length, length_app, Hk52 by exact Hall. reflexivity. }
  exists ("jester1" ++ body)%string.
  split; [|split; [|split]].
  - unfold gameIdToJesterId. rewrite Hto. unfold encode. rewrite Hk52.
    change (Js.length JESTER_ID_PREFIX + 7 + Z.of_nat 52 >? LIMIT) with false.
    change (Js.toLowerCase JESTER_ID_PREFIX) with "jester".
    cbv iota. rewrite Hchk.
    rewrite encode_words_spec by exact Hw.
    rewrite encode_checksum_spec. fold m.
    rewrite append_assoc, <- chars_app. reflexivity.
  - unfold jesterIdToGameId.
    rewrite (decode_body body words 58 chk); trivial.
    + lia.
    + apply chars_lower. exact Hall.
    + apply chars_no_separator. exact Hall.
    + unfold body.
      rewrite (decode_loop_spec words Hw (checksum_words m)
                 (checksum_words_digits m) 0 (Z.of_nat 58) chk [])
        by (rewrite Hk52; reflexivity).
      rewrite polymod_app. unfold m. rewrite checksum_verifies. reflexivity.
  - reflexivity.
  - rewrite length_append, Hbody. reflexivity.
Qed.

End RoundTrip.

(** ** Claims on the codec, the search and the current game *)

(** Validity of a concrete game id. *)
Ltac valid_id :=
  split; [reflexivity | repeat (apply Forall_cons; [lia|]); apply Forall_nil].

Section Addressing.

Import Digits Bech32m JesterUtils.

(** C1: for every valid 32-byte game id [x], [gameIdToJesterId x] yields
    an identifier (it has no failure case) and [jesterIdToGameId] of that
    identifier succeeds and returns [x]. *)
Theorem jester_id_roundtrip (x : RawGameId) (Hx : valid_RawGameId x) :
  exists jesterId,
    gameIdToJesterId x = Ok jesterId /\ jesterIdToGameId jesterId = Ok x.
Proof.
  destruct (codec_roundtrip x Hx) as (jesterId & Henc & Hdec & _).
  exists jesterId. now split.
Qed.

Lemma jester_id_roundtrip_witness :
  valid_RawGameId Scenario.zero_id /\
  exists jesterId,
    gameIdToJesterId Scenario.zero_id = Ok jesterId /\
    jesterIdToGameId jesterId = Ok Scenario.zero_id.
Proof.
  assert (H : valid_RawGameId Scenario.zero_id) by valid_id.
  split; [exact H | exact (jester_id_roundtrip _ H)].
Defined.

(** The scenario of the spec, and the identifier quoted in the sources,
    evaluated. *)
Lemma zero_id_encodes :
  gameIdToJesterId Scenario.zero_id = Ok Scenario.zero_jester_id /\
  jesterIdToGameId Scenario.zero_jester_id = Ok Scenario.zero_id.
Proof. split; vm_compute; reflexivity. Qed.

Lemma sample_id_decodes :
  jesterIdToGameId Scenario.quoted_jester_id = Ok Scenario.quoted_game_id /\
  gameIdToJesterId Scenario.quoted_game_id = Ok Scenario.quoted_jester_id.
Proof. split; vm_compute; reflexivity. Qed.


Lemma jester_id_truthy (x : RawGameId) (jesterId : JesterId) :
  valid_RawGameId x -> gameIdToJesterId x = Ok jesterId ->
  LobbyPage.truthy jesterId = true /\ jesterIdToGameId jesterId = Ok x.
Proof.
  intros Hx Hid.
  destruct (codec_roundtrip x Hx) as (j & Hj & Hd & _ & Hlen).
  assert (j = jesterId) by congruence. subst j. split; [|exact Hd].
  unfold LobbyPage.truthy. destruct jesterId; [discriminate | reflexivity].
Qed.

End Addressing.

Section CurrentGame.

Import JesterUtils Settings LobbyPage.

Lemma isCurrentGame_true_iff game held :
  isCurrentGame game (Some held) = true <-> id game = held.
Proof.
  unfold isCurrentGame. destruct (list_eq_dec Z.eq_dec (id game) held); split;
    intros; trivial; try discriminate; contradiction.
Qed.

Lemma currentGameId_held settings held jesterId :
  valid_RawGameId held -> gameIdToJesterId held = Ok jesterId ->
  currentGameJesterId settings = Some jesterId ->
  currentGameId settings = Ok (Some held).
Proof.
  intros Hheld Hid Hset. unfold currentGameId. rewrite Hset.
  destruct (jester_id_truthy held jesterId Hheld Hid) as [-> ->]. reflexivity.
Qed.





(** C7: the settings hold at most one current-game identifier; after
    [setCurrent(A)] then [setCurrent(B)] the held identifier is [B] and
    the lobby marks exactly the records of [B]'s game; after the dismissal
    nothing is held and no record is marked; a dispatch leaves the held
    identifier alone unless it carries the field, so a held identifier is
    removed only by a dispatch that carries it as [undefined]. *)
Theorem current_game_exclusive
        (a b : RawGameId) (idA idB : JesterId) (settings : AppSettings)
        (Ha : valid_RawGameId a) (Hb : valid_RawGameId b)
        (HidA : gameIdToJesterId a = Ok idA)
        (HidB : gameIdToJesterId b = Ok idB) :
  let afterB := setCurrentGame idB (setCurrentGame idA settings) in
  let cleared := unsubscribeFromCurrentGame afterB in
  currentGameJesterId afterB = Some idB /\
  currentGameId afterB = Ok (Some b) /\
  (forall game, isCurrentGame game (Some b) = true <-> id game = b) /\
  currentGameJesterId cleared = None /\
  currentGameId cleared = Ok None /\
  (forall game, isCurrentGame game None = false) /\
  (forall update s,
      currentGameJesterId (settingsDispatch update s)
      = match set_currentGameJesterId update with
        | Some v => v
        | None => currentGameJesterId s
        end) /\
  (forall update s,
      currentGameJesterId s <> None ->
      currentGameJesterId (settingsDispatch update s) = None ->
      set_currentGameJesterId update = Some None).
Proof.
  cbv zeta.
  split; [reflexivity|].
  split; [now apply (currentGameId_held _ b idB)|].
  split; [intro game; apply isCurrentGame_true_iff|].
  split; [reflexivity|]. split; [reflexivity|]. split; [reflexivity|].
  split.
  - intros update s. unfold settingsDispatch, override. reflexivity.
  - intros update s Hheld Hnone.
    unfold settingsDispatch, override in Hnone. cbn in Hnone.
    destruct (set_currentGameJesterId update) as [v|]; [now subst | contradiction].
Qed.

Lemma current_game_exclusive_witness :
  valid_RawGameId Scenario.zero_id /\ valid_RawGameId Scenario.quoted_game_id /\
  gameIdToJesterId Scenario.zero_id = Ok Scenario.zero_jester_id /\
  gameIdToJesterId Scenario.quoted_game_id = Ok Scenario.quoted_jester_id /\
  currentGameId
    (setCurrentGame Scenario.quoted_jester_id
       (setCurrentGame Scenario.zero_jester_id
          {| dev := false; identity := None; currentGameJesterId := None |}))
  = Ok (Some Scenario.quoted_game_id).
Proof.
  assert (HA : gameIdToJesterId Scenario.zero_id = Ok Scenario.zero_jester_id)
    by (vm_compute; reflexivity).
  assert (HB : gameIdToJesterId Scenario.quoted_game_id = Ok Scenario.quoted_jester_id)
    by (vm_compute; reflexivity).
  assert (VA : valid_RawGameId Scenario.zero_id) by valid_id.
  assert (VB : valid_RawGameId Scenario.quoted_game_id) by valid_id.
  split; [exact VA|]. split; [exact VB|].
  split; [exact HA|]. split; [exact HB|].
  exact (proj1 (proj2 (current_game_exclusive
                         Scenario.zero_id Scenario.quoted_game_id
                         Scenario.zero_jester_id Scenario.quoted_jester_id
                         {| dev := false; identity := None;
                            currentGameJesterId := None |}
                         VA VB HA HB))).
Defined.

End CurrentGame.

Section SearchDecoding.

Import JesterUtils SearchPage.

(** C5, as the code has it: [search] is defined on every input string and
    throws nothing; it looks for the first occurrence of the prefix and
    separator at any position and parses from there; when the spec's
    [decode] succeeds it navigates to the identifier found, and when it
    fails, for whichever of the three reasons, the outcome is the same
    untagged one (validity flag [false], empty result list, no
    navigation), except that the empty input leaves the flag alone. *)
Theorem search_total_untagged (searchInput : string) (st : State) :
  let i := Js.indexOf searchInput (JESTER_ID_PREFIX ++ "1") in
  match decode_spec searchInput with
  | inl _ =>
      0 <= i /\
      search searchInput st
      = (accepted st, Some ("/redirect/game/" ++ Js.substring searchInput i)%string)
  | inr _ =>
      search searchInput st
      = (if String.eqb searchInput "" then setSearchResults (Some []) st
         else rejected st, None)
  end.
Proof.
  cbv zeta. unfold decode_spec, search, tryParseJesterId.
  destruct (String.eqb_spec searchInput "") as [->|Hne]; [reflexivity|].
  destruct (Js.indexOf searchInput (JESTER_ID_PREFIX ++ "1") <? 0) eqn:Ei;
    [reflexivity|].
  apply Z.ltb_ge in Ei.
  destruct (jesterIdToGameId _) as [gameId|e].
  - split; [exact Ei | reflexivity].
  - destruct e; reflexivity.
Qed.

Lemma drop_append (pre s : string) : Js.drop (String.length pre) (pre ++ s) = s.
Proof. induction pre as [|c pre IH]; [reflexivity | exact IH]. Qed.

(** An identifier at the end of a longer string is found, as long as its
    prefix does not occur earlier in the string. *)
Lemma search_embedded_id (pre : string) (x : RawGameId) (jesterId : JesterId)
      (st : State) :
  valid_RawGameId x -> gameIdToJesterId x = Ok jesterId ->
  Js.indexOf (pre ++ jesterId) (JESTER_ID_PREFIX ++ "1") = Js.length pre ->
  search (pre ++ jesterId) st
  = (accepted st, Some ("/redirect/game/" ++ jesterId)%string).
Proof.
  intros Hx Hid Hidx.
  destruct (jester_id_truthy x jesterId Hx Hid) as [Ht Hdec].
  unfold search. rewrite Hidx.
  assert (Hne : String.eqb (pre ++ jesterId) "" = false).
  { apply String.eqb_neq. intro H. destruct pre; [|discriminate].
    simpl in H. subst jesterId. discriminate. }
  rewrite Hne.
  replace (Js.length pre <? 0) with false
    by (symmetry; apply Z.ltb_ge; unfold Js.length; lia).
  unfold Js.substring, Js.length. rewrite Nat2Z.id, drop_append.
  unfold tryParseJesterId. rewrite Hdec. reflexivity.
Qed.

Lemma search_finds_id_in_url :
  search ("https://example.com/" ++ Scenario.quoted_jester_id) initial
  = (accepted initial, Some ("/redirect/game/" ++ Scenario.quoted_jester_id)%string).
Proof. vm_compute. reflexivity. Qed.

(** The three failure kinds of the spec, and the one outcome of [search]. *)
Lemma search_failures_coincide :
  decode_spec "no prefix here" = inr MalformedIdentifier /\
  decode_spec Scenario.undecodable_id = inr InvalidEncoding /\
  decode_spec Scenario.wrong_checksum_id = inr ChecksumMismatch /\
  search "no prefix here" initial = (rejected initial, None) /\
  search Scenario.undecodable_id initial = (rejected initial, None) /\
  search Scenario.wrong_checksum_id initial = (rejected initial, None).
Proof. repeat split; vm_compute; reflexivity. Qed.

(** C5 as stated fails: no reading of the outcome of [search] gives back
    the failure kind, since an undecodable payload and a wrong checksum
    leave the same outcome. *)
Lemma search_failure_kind_counterexample :
  ~ exists tag : State * option string -> ParseFailure,
      forall (s : string) (k : ParseFailure),
        decode_spec s = inr k -> tag (search s initial) = k.
Proof.
  intros [tag Htag].
  destruct search_failures_coincide as (_ & H1 & H2 & _ & S1 & S2).
  pose proof (Htag _ _ H1) as T1. pose proof (Htag _ _ H2) as T2.
  rewrite S1 in T1. rewrite S2 in T2. congruence.
Qed.

End SearchDecoding.

(** * Further properties of the sources *)

(** ** The search page *)

Section SearchStates.

Import JesterUtils SearchPage SearchView.

(** [search] on an input that is not empty, by what it finds. *)
Lemma search_found (searchInput : string) (st : State) :
  searchInput <> "" ->
  search searchInput st
  = match found searchInput with
    | Some jesterId => (accepted st, Some ("/redirect/game/" ++ jesterId)%string)
    | None => (rejected st, None)
    end.
Proof.
  intro Hne. unfold search, found. apply String.eqb_neq in Hne. rewrite Hne.
  destruct (_ <? 0); [reflexivity|].
  destruct (tryParseJesterId _); reflexivity.
Qed.

Lemma found_empty : found "" = None.
Proof. reflexivity. Qed.

(** What the marks of a reachable state say about the text in the box. *)
Lemma reachable_marks (st : State) : reachable st ->
  match inputIsJesterId st with
  | None =>
      searchResults st = None \/
      (searchResults st = Some [] /\ searchInputValue st = "")
  | Some false =>
      searchResults st = Some [] /\ searchInputValue st <> "" /\
      found (searchInputValue st) = None
  | Some true =>
      searchResults st = None /\ searchInputValue st <> "" /\
      exists jesterId, found (searchInputValue st) = Some jesterId
  end.
Proof.
  induction 1 as [|st a Hst IH]; [left; reflexivity|].
  destruct a as [value|]; [left; reflexivity|].
  unfold step, onSearchButtonClicked.
  destruct (String.eqb_spec (searchInputValue st) "") as [He|Hne].
  - rewrite He, search_empty. cbn [fst inputIsJesterId searchResults searchInputValue].
    destruct (inputIsJesterId st) as [[|]|].
    + destruct IH as (_ & Hv & _). contradiction.
    + destruct IH as (_ & Hv & _). contradiction.
    + right. split; [reflexivity | exact He].
  - rewrite (search_found _ st Hne).
    destruct (found (searchInputValue st)) as [jesterId|] eqn:Ef;
      cbn [fst accepted rejected inputIsJesterId searchResults searchInputValue].
    + split; [reflexivity|]. split; [exact Hne|]. now exists jesterId.
    + split; [reflexivity|]. split; [exact Hne | exact Ef].
Qed.

(** X1: in every state the page can reach, the validity mark refers to the
    text currently in the box: it is [true] only if the text is not empty
    and holds an identifier that parses, [false] only if the text is not
    empty and holds none, and it is unset otherwise; the result list is
    [null], or empty next to a [false] mark or an empty text. *)
Theorem search_marks_follow_input (st : State) (Hst : reachable st) :
  match inputIsJesterId st with
  | None =>
      searchResults st = None \/
      (searchResults st = Some [] /\ searchInputValue st = "")
  | Some false =>
      searchResults st = Some [] /\ searchInputValue st <> "" /\
      found (searchInputValue st) = None
  | Some true =>
      searchResults st = None /\ searchInputValue st <> "" /\
      exists jesterId, found (searchInputValue st) = Some jesterId
  end.
Proof. exact (reachable_marks st Hst). Qed.

Lemma search_marks_follow_input_witness :
  reachable (step (step initial (Change "chess")) Submit) /\
  inputIsJesterId (step (step initial (Change "chess")) Submit) = Some false /\
  found "chess" = None.
Proof.
  assert (H : reachable (step (step initial (Change "chess")) Submit))
    by (repeat apply reachable_step; apply reachable_initial).
  split; [exact H|]. split; [reflexivity|].
  exact (proj2 (proj2 (search_marks_follow_input _ H))).
Defined.

(** X2: what is shown in a reachable state: the success mark and the
    "No results found." notice never appear together, the error mark never
    appears without the notice, and the result list never has an entry. *)
Theorem search_view_consistent (st : State) (Hst : reachable st) :
  (showsSuccess st = true -> showsNoResults st = false) /\
  (showsError st = true -> showsNoResults st = true) /\
  (searchResults st = None \/ searchResults st = Some []).
Proof.
  pose proof (reachable_marks st Hst) as H.
  unfold showsSuccess, showsError, showsNoResults.
  destruct (inputIsJesterId st) as [[|]|].
  - destruct H as (-> & _). repeat split; try discriminate. now left.
  - destruct H as (-> & _). repeat split; try discriminate. now right.
  - destruct H as [-> | [-> _]]; repeat split; try discriminate; tauto.
Qed.

Lemma search_view_consistent_witness :
  reachable (step (step initial (Change Scenario.quoted_jester_id)) Submit) /\
  showsSuccess (step (step initial (Change Scenario.quoted_jester_id)) Submit) = true /\
  showsNoResults (step (step initial (Change Scenario.quoted_jester_id)) Submit) = false.
Proof.
  assert (H : reachable (step (step initial (Change Scenario.quoted_jester_id)) Submit))
    by (repeat apply reachable_step; apply reachable_initial).
  assert (S : showsSuccess (step (step initial (Change Scenario.quoted_jester_id)) Submit)
              = true) by (vm_compute; reflexivity).
  split; [exact H|]. split; [exact S|].
  exact (proj1 (search_view_consistent _ H) S).
Defined.

(** The first occurrence that [indexOf] reports is an occurrence. *)
Lemma indexOf_from_occurrence (s p : string) : forall i,
  0 <= i -> 0 <= Js.indexOf_from s p i ->
  i <= Js.indexOf_from s p i /\
  Js.startsWith (Js.drop (Z.to_nat (Js.indexOf_from s p i - i)) s) p = true.
Proof.
  induction s as [|c s IH]; intros i Hi Hr.
  - cbn [Js.indexOf_from] in *. destruct (Js.startsWith "" p) eqn:E; [|lia].
    rewrite Z.sub_diag. split; [lia | exact E].
  - cbn [Js.indexOf_from] in *. destruct (Js.startsWith (String c s) p) eqn:E.
    + rewrite Z.sub_diag. split; [lia | exact E].
    + destruct (IH (i + 1) ltac:(lia) Hr) as [Hle Hocc]. split; [lia|].
      replace (Z.to_nat (Js.indexOf_from s p (i + 1) - i))
        with (S (Z.to_nat (Js.indexOf_from s p (i + 1) - (i + 1)))) by lia.
      exact Hocc.
Qed.

(** X3: [search] navigates only to ["/redirect/game/"] followed by a text
    that starts with the prefix and separator and that [jesterIdToGameId]
    decodes; whenever it navigates it also sets the success mark and
    clears the result list. *)
Theorem search_navigates_to_parsed_id
        (searchInput : string) (st : State) (path : string)
        (Hnav : snd (search searchInput st) = Some path) :
  exists jesterId gameId,
    path = ("/redirect/game/" ++ jesterId)%string /\
    Js.startsWith jesterId (JESTER_ID_PREFIX ++ "1") = true /\
    jesterIdToGameId jesterId = Ok gameId /\
    fst (search searchInput st) = accepted st.
Proof.
  unfold search in *.
  destruct (String.eqb searchInput ""); [discriminate|].
  destruct (Js.indexOf searchInput (JESTER_ID_PREFIX ++ "1") <? 0) eqn:Ei;
    [discriminate|].
  apply Z.ltb_ge in Ei.
  destruct (tryParseJesterId _) as [jesterId|] eqn:Et; [|discriminate].
  cbn [fst snd] in *. injection Hnav as <-.
  unfold tryParseJesterId in Et.
  destruct (jesterIdToGameId _) as [gameId|] eqn:Ed; [|discriminate].
  injection Et as <-.
  exists (Js.substring searchInput (Js.indexOf searchInput (JESTER_ID_PREFIX ++ "1"))),
    gameId.
  split; [reflexivity|]. split; [|split; [exact Ed | reflexivity]].
  unfold Js.substring, Js.indexOf in *.
  destruct (indexOf_from_occurrence searchInput (JESTER_ID_PREFIX ++ "1") 0
              ltac:(lia) Ei) as [_ Hocc].
  now rewrite Z.sub_0_r in Hocc.
Qed.

Lemma search_navigates_to_parsed_id_witness :
  snd (search Scenario.quoted_jester_id initial)
  = Some ("/redirect/game/" ++ Scenario.quoted_jester_id)%string /\
  exists jesterId gameId,
    ("/redirect/game/" ++ Scenario.quoted_jester_id)%string
    = ("/redirect/game/" ++ jesterId)%string /\
    Js.startsWith jesterId (JESTER_ID_PREFIX ++ "1") = true /\
    jesterIdToGameId jesterId = Ok gameId /\
    fst (search Scenario.quoted_jester_id initial) = accepted initial.
Proof.
  assert (H : snd (search Scenario.quoted_jester_id initial)
              = Some ("/redirect/game/" ++ Scenario.quoted_jester_id)%string)
    by (vm_compute; reflexivity).
  split; [exact H|].
  exact (search_navigates_to_parsed_id _ _ _ H).
Defined.

(** X4: pressing the search button twice without changing the text gives
    the state and the navigation of pressing it once, and a search never
    changes the text in the box. *)
Theorem search_button_idempotent (st : State) :
  onSearchButtonClicked (fst (onSearchButtonClicked st)) = onSearchButtonClicked st /\
  searchInputValue (fst (onSearchButtonClicked st)) = searchInputValue st.
Proof.
  unfold onSearchButtonClicked.
  destruct (String.eqb_spec (searchInputValue st) "") as [He|Hne].
  - rewrite He, search_empty. cbn [fst searchInputValue]. rewrite He, search_empty.
    split; reflexivity.
  - rewrite (search_found _ st Hne).
    destruct (found (searchInputValue st)) as [jesterId|] eqn:Ef;
      cbn [fst accepted rejected searchInputValue];
      (split; [|reflexivity]);
      rewrite search_found by exact Hne; rewrite Ef; reflexivity.
Qed.

End SearchStates.

(** ** Game cards and the search *)

Section CardsAndSearch.

Import JesterUtils SearchPage.

(** Text in front of an identifier cannot complete an earlier occurrence
    of the prefix together with the identifier's first characters. *)
Lemma startsWith_no_straddle (c : ascii) (rest body : string) :
  Js.startsWith (String c rest) "jester1" = false ->
  Js.startsWith (String c rest ++ "jester1" ++ body) "jester1" = false.
Proof.
  cbn [Js.startsWith append].
  destruct (Ascii.eqb "j" c); [cbn [andb] | reflexivity].
  destruct rest as [|c1 rest]; [reflexivity|]. cbn [Js.startsWith append].
  destruct (Ascii.eqb "e" c1); [cbn [andb] | reflexivity].
  destruct rest as [|c2 rest]; [reflexivity|]. cbn [Js.startsWith append].
  destruct (Ascii.eqb "s" c2); [cbn [andb] | reflexivity].
  destruct rest as [|c3 rest]; [reflexivity|]. cbn [Js.startsWith append].
  destruct (Ascii.eqb "t" c3); [cbn [andb] | reflexivity].
  destruct rest as [|c4 rest]; [reflexivity|]. cbn [Js.startsWith append].
  destruct (Ascii.eqb "e" c4); [cbn [andb] | reflexivity].
  destruct rest as [|c5 rest]; [reflexivity|]. cbn [Js.startsWith append].
  destruct (Ascii.eqb "r" c5); [cbn [andb] | reflexivity].
  destruct rest as [|c6 rest]; [reflexivity|]. cbn [Js.startsWith append].
  destruct (Ascii.eqb "1" c6); [cbn [andb] | reflexivity].
  discriminate.
Qed.

Lemma indexOf_from_append (pre body : string) : forall i,
  0 <= i -> Js.indexOf_from pre "jester1" i < 0 ->
  Js.indexOf_from (pre ++ "jester1" ++ body) "jester1" i
  = i + Z.of_nat (String.length pre).
Proof.
  induction pre as [|c pre IH]; intros i Hi Hno.
  - cbn. lia.
  - cbn [Js.indexOf_from] in Hno.
    destruct (Js.startsWith (String c pre) "jester1") eqn:E; [lia|].
    change ((String c pre ++ "jester1" ++ body)%string)
      with (String c (pre ++ "jester1" ++ body)).
    cbn [Js.indexOf_from].
    change (String c (pre ++ "jester1" ++ body))
      with ((String c pre ++ "jester1" ++ body)%string).
    rewrite (startsWith_no_straddle c pre body E).
    rewrite IH by (trivial; lia). cbn [String.length]. lia.
Qed.

Lemma startsWith_split (s : string) :
  Js.startsWith s "jester1" = true -> exists body, s = ("jester1" ++ body)%string.
Proof.
  cbn [Js.startsWith].
  repeat (destruct s as [|? s]; [discriminate|];
          match goal with
          | |- (Ascii.eqb ?a ?b && _)%bool = true -> _ =>
              destruct (Ascii.eqb_spec a b); [subst; cbn [andb] | discriminate]
          end).
  intros _. now exists s.
Qed.

(** X5: the search finds the identifier a game card shows at the end of
    any text that does not itself contain the prefix and separator (a
    pasted link, say) and navigates to that game's redirect path. *)
Theorem search_finds_card_id
        (pre : string) (game : GameStartEvent) (jesterId : JesterId) (st : State)
        (Hvalid : valid_RawGameId (id game))
        (Hcard : GameCard.jesterId game = Ok jesterId)
        (Hpre : Js.indexOf pre (JESTER_ID_PREFIX ++ "1") < 0) :
  search (pre ++ jesterId) st
  = (accepted st, Some ("/redirect/game/" ++ jesterId)%string).
Proof.
  unfold GameCard.jesterId in Hcard.
  apply (search_embedded_id pre (id game)); trivial.
  destruct (codec_roundtrip (id game) Hvalid) as (j & Hj & _ & Hstart & _).
  assert (j = jesterId) by congruence. subst j.
  destruct (startsWith_split jesterId Hstart) as (body & ->).
  unfold Js.indexOf, Js.length in *.
  rewrite indexOf_from_append; trivial; lia.
Qed.

Lemma search_finds_card_id_witness :
  valid_RawGameId (id (Scenario.challenge 0 20 "K")) /\
  search ("https://jester.example.org/game/" ++ Scenario.zero_jester_id) initial
  = (accepted initial, Some ("/redirect/game/" ++ Scenario.zero_jester_id)%string).
Proof.
  assert (V : valid_RawGameId (id (Scenario.challenge 0 20 "K"))) by valid_id.
  assert (C : GameCard.jesterId (Scenario.challenge 0 20 "K") = Ok Scenario.zero_jester_id)
    by (vm_compute; reflexivity).
  assert (P : Js.indexOf "https://jester.example.org/game/" (JESTER_ID_PREFIX ++ "1") < 0)
    by (vm_compute; reflexivity).
  split; [exact V|].
  exact (search_finds_card_id _ _ _ initial V C P).
Defined.

(** X6: every game with a valid id gets a card link, and two such games
    get the same link exactly when they have the same id. *)
Theorem game_card_links_distinct (game1 game2 : GameStartEvent)
        (H1 : valid_RawGameId (id game1)) (H2 : valid_RawGameId (id game2)) :
  exists link1 link2,
    GameCard.link game1 = Ok link1 /\ GameCard.link game2 = Ok link2 /\
    (link1 = link2 <-> id game1 = id game2).
Proof.
  destruct (codec_roundtrip (id game1) H1) as (j1 & E1 & D1 & _).
  destruct (codec_roundtrip (id game2) H2) as (j2 & E2 & D2 & _).
  exists ("/game/" ++ j1)%string, ("/game/" ++ j2)%string.
  unfold GameCard.link, GameCard.jesterId. rewrite E1, E2.
  split; [reflexivity|]. split; [reflexivity|]. split.
  - intro H. cbn [append] in H. injection H as ->. congruence.
  - intro H. rewrite H in E1. congruence.
Qed.

Lemma game_card_links_distinct_witness :
  valid_RawGameId (id (Scenario.challenge 1 20 "K")) /\
  valid_RawGameId (id (Scenario.challenge 2 10 "K")) /\
  exists link1 link2,
    GameCard.link (Scenario.challenge 1 20 "K") = Ok link1 /\
    GameCard.link (Scenario.challenge 2 10 "K") = Ok link2 /\
    (link1 = link2 <->
     id (Scenario.challenge 1 20 "K") = id (Scenario.challenge 2 10 "K")).
Proof.
  assert (V1 : valid_RawGameId (id (Scenario.challenge 1 20 "K"))) by valid_id.
  assert (V2 : valid_RawGameId (id (Scenario.challenge 2 10 "K"))) by valid_id.
  split; [exact V1|]. split; [exact V2|].
  exact (game_card_links_distinct _ _ V1 V2).
Defined.

End CardsAndSearch.

(** ** The lobby lists *)

Section LobbyLists.

Import Settings LobbyPage LobbyView.

Lemma insert_created_at_sorted e rows :
  StronglySorted not_after rows ->
  StronglySorted not_after (Dexie.insert_created_at e rows).
Proof.
  induction 1 as [|r rows Hs IH Hr]; cbn [Dexie.insert_created_at].
  - repeat constructor.
  - destruct (created_at e <=? created_at r) eqn:E.
    + apply Z.leb_le in E. constructor; [constructor; trivial|].
      constructor; [exact E|].
      rewrite Forall_forall in *. intros x Hx. specialize (Hr x Hx).
      unfold not_after in *. lia.
    + apply Z.leb_gt in E. constructor; [exact IH|].
      rewrite Forall_forall in *. intros x Hx.
      apply insert_created_at_In in Hx. destruct Hx as [->|Hx].
      * unfold not_after. lia.
      * now apply Hr.
Qed.

Lemma by_created_at_sorted table : StronglySorted not_after (Dexie.by_created_at table).
Proof.
  induction table as [|r table IH]; [constructor|].
  now apply insert_created_at_sorted.
Qed.

Lemma filter_sorted {A : Type} (R : A -> A -> Prop) (f : A -> bool) (l : list A) :
  StronglySorted R l -> StronglySorted R (filter f l).
Proof.
  induction 1 as [|a l Hs IH Ha]; cbn [filter]; [constructor|].
  destruct (f a); [|exact IH]. constructor; [exact IH|].
  rewrite Forall_forall in *. intros x Hx. apply filter_In in Hx. now apply Ha.
Qed.

Lemma sorted_app {A : Type} (R : A -> A -> Prop) (l1 l2 : list A) :
  StronglySorted R (l1 ++ l2) ->
  StronglySorted R l1 /\ forall a b, In a l1 -> In b l2 -> R a b.
Proof.
  induction l1 as [|x l1 IH]; cbn [app]; intro H.
  - split; [constructor | intros a b []].
  - inversion_clear H as [|? ? Hs Hx]. destruct (IH Hs) as [Hs1 Hcross].
    rewrite Forall_forall in Hx. split.
    + constructor; [exact Hs1|]. rewrite Forall_forall. intros y Hy.
      apply Hx, in_or_app. now left.
    + intros a b [->|Ha] Hb; [apply Hx, in_or_app; now right | now apply Hcross].
Qed.

Lemma filter_insert_length f e rows :
  List.length (filter f (Dexie.insert_created_at e rows))
  = List.length (filter f (e :: rows)).
Proof.
  induction rows as [|r rows IH]; [reflexivity|].
  cbn [Dexie.insert_created_at]. destruct (created_at e <=? created_at r); [reflexivity|].
  cbn [filter] in *. destruct (f r), (f e); cbn [List.length] in *; lia.
Qed.

Lemma filter_by_created_at_length f table :
  List.length (filter f (Dexie.by_created_at table)) = List.length (filter f table).
Proof.
  induction table as [|r table IH]; [reflexivity|].
  cbn [Dexie.by_created_at fold_right]. rewrite filter_insert_length.
  cbn [filter]. fold (Dexie.by_created_at table).
  destruct (f r); cbn [List.length]; now rewrite IH.
Qed.

Lemma in_range_in_window (w : GamesFilter) (e : GameStartEvent) :
  Dexie.in_range (seconds (from w)) (seconds (until w)) e = in_window w e.
Proof.
  unfold Dexie.in_range, in_window, seconds, Qle_bool, inject_Z. cbn [Qnum Qden].
  rewrite !Z.mul_1_r.
  destruct (Z.leb_spec (getTime (from w)) (created_at e * 1000)); cbn [andb];
    [|reflexivity].
  destruct (Z.leb_spec (getTime (until w)) (created_at e * 1000)),
           (Z.ltb_spec (created_at e * 1000) (getTime (until w)));
    cbn [negb]; trivial; lia.
Qed.

(** X7: the number of games the lobby lists ("N games available") is the
    number of stored records whose creation time is in the window
    ([from <= created_at * 1000 < until], the dates being in
    milliseconds), or 100 when there are more. *)
Theorem listOfStartGames_count (game_start : Dexie.Table) (w : GamesFilter) :
  List.length (listOfStartGamesLiveQuery game_start w)
  = Nat.min 100 (List.length (filter (in_window w) game_start)).
Proof.
  unfold listOfStartGamesLiveQuery, Dexie.limit, Dexie.where_created_at_between,
    MAX_AMOUNT_OF_GAMES.
  change (Z.to_nat 100) with 100%nat.
  rewrite length_firstn, filter_by_created_at_length.
  f_equal. f_equal. apply filter_ext. intro e. apply in_range_in_window.
Qed.

(** X8: the listed games come oldest first, and when the window holds more
    than 100 records the ones left out are the newest: none of them was
    created before a listed one. *)
Theorem listOfStartGames_oldest_first (game_start : Dexie.Table) (w : GamesFilter) :
  let matching :=
    Dexie.where_created_at_between game_start (seconds (from w)) (seconds (until w)) in
  let result := listOfStartGamesLiveQuery game_start w in
  StronglySorted not_after result /\
  matching = result ++ skipn 100 matching /\
  (forall listed dropped,
      In listed result -> In dropped (skipn 100 matching) ->
      created_at listed <= created_at dropped).
Proof.
  cbv zeta. unfold listOfStartGamesLiveQuery, Dexie.limit, MAX_AMOUNT_OF_GAMES.
  change (Z.to_nat 100) with 100%nat.
  set (matching := Dexie.where_created_at_between _ _ _).
  assert (Hs : StronglySorted not_after matching)
    by (apply filter_sorted, by_created_at_sorted).
  rewrite <- (firstn_skipn 100 matching) in Hs.
  destruct (sorted_app _ _ _ Hs) as [Hs1 Hcross].
  split; [exact Hs1|]. split; [symmetry; apply firstn_skipn | exact Hcross].
Qed.

(** X9: a stored record belongs to the window computed at [now] exactly
    while [now] is at most [D] after and less than [D] before its creation;
    so a record that has become too old for the window stays out of the
    list at every later refresh. *)
Theorem expired_game_stays_out
        (env : NodeEnv) (game_start : Dexie.Table) (now later : Date)
        (e : GameStartEvent)
        (Hlater : getTime now <= getTime later)
        (Hold : created_at e * 1000 < getTime (from (createGameOverviewFilter env now))) :
  let D := GAMES_FILTER_PAST_DURATION_IN_SECONDS env * 1000 in
  (forall (at_ : Date) (g : GameStartEvent),
      let w := createGameOverviewFilter env at_ in
      In g (Dexie.where_created_at_between game_start (seconds (from w)) (seconds (until w)))
      <-> In g game_start /\
          created_at g * 1000 - D < getTime at_ <= created_at g * 1000 + D) /\
  ~ In e (listOfStartGamesLiveQuery game_start (createGameOverviewFilter env later)).
Proof.
  cbv zeta.
  assert (Hiff : forall (at_ : Date) (g : GameStartEvent),
      In g (Dexie.where_created_at_between game_start
              (seconds (from (createGameOverviewFilter env at_)))
              (seconds (until (createGameOverviewFilter env at_))))
      <-> In g game_start /\
          created_at g * 1000 - GAMES_FILTER_PAST_DURATION_IN_SECONDS env * 1000
          < getTime at_
          <= created_at g * 1000 + GAMES_FILTER_PAST_DURATION_IN_SECONDS env * 1000).
  { intros at_ g. rewrite where_created_at_between_In.
    unfold seconds, Qle, Qlt, inject_Z, createGameOverviewFilter.
    cbn [from until getTime Qnum Qden]. split; intros (Hin & H); (split; [exact Hin|]); lia. }
  split; [exact Hiff|].
  intro Hin. apply In_firstn in Hin. apply Hiff in Hin.
  unfold createGameOverviewFilter in Hold. cbn [from getTime] in Hold. lia.
Qed.

Lemma expired_game_stays_out_witness :
  getTime (mkDate 400000) <= getTime (mkDate 410000) /\
  20 * 1000 < getTime (from (createGameOverviewFilter production (mkDate 400000))) /\
  ~ In (Scenario.challenge 1 20 "K")
       (listOfStartGamesLiveQuery Scenario.challenges
          (createGameOverviewFilter production (mkDate 410000))).
Proof.
  assert (H1 : getTime (mkDate 400000) <= getTime (mkDate 410000)) by (cbn; lia).
  assert (H2 : created_at (Scenario.challenge 1 20 "K") * 1000
               < getTime (from (createGameOverviewFilter production (mkDate 400000))))
    by (vm_compute; reflexivity).
  split; [exact H1|]. split; [exact H2|].
  exact (proj2 (expired_game_stays_out production Scenario.challenges
                  (mkDate 400000) (mkDate 410000) (Scenario.challenge 1 20 "K") H1 H2)).
Defined.

Section DirectChallenges.

Variable jesterPrivateStartGameRef : string -> string.

(** X10: the "Direct Challenges" section is rendered exactly when the page
    has a connection, the viewer has a public key with a non-empty
    reference tag and the store holds a record carrying that tag; its
    heading never counts more than 3; without a connection or without an
    identity it is never rendered. *)
Theorem direct_challenges_section
        (incomingNostr : bool) (game_start : Dexie.Table) (settings : AppSettings) :
  let query :=
    listOfPrivateStartGamesLiveQuery game_start
      (privateStartGameRef jesterPrivateStartGameRef (publicKeyOrNull settings)) in
  (showsDirectChallenges incomingNostr query = true <->
   incomingNostr = true /\
   exists pk e,
     publicKeyOrNull settings = Some pk /\
     jesterPrivateStartGameRef pk <> "" /\
     In e game_start /\ In (jesterPrivateStartGameRef pk) (event_tags e)) /\
  (directChallengesCount query <= 3)%nat /\
  (incomingNostr = false -> showsDirectChallenges incomingNostr query = false) /\
  (identity settings = None -> showsDirectChallenges incomingNostr query = false).
Proof.
  cbv zeta. split; [|split; [|split]].
  - unfold showsDirectChallenges.
    destruct incomingNostr; cbn [negb];
      [|split; [discriminate | intros [H _]; discriminate]].
    destruct (publicKeyOrNull settings) as [pk|];
      cbn [privateStartGameRef listOfPrivateStartGamesLiveQuery].
    2:{ split; [discriminate | intros (_ & pk & e & H & _); discriminate]. }
    unfold truthy. rewrite negb_involutive.
    destruct (String.eqb_spec (jesterPrivateStartGameRef pk) "") as [He|Hne].
    { split; [discriminate|]. intros (_ & pk' & e & H & Hn & _).
      injection H as <-. contradiction. }
    unfold Dexie.limit, Dexie.where_event_tags_equals.
    change (Z.to_nat 3) with 3%nat.
    destruct (filter (Dexie.has_tag (jesterPrivateStartGameRef pk)) game_start)
      as [|x l] eqn:Ef.
    + split; [discriminate|]. intros (_ & pk' & e & H & _ & Hin & Htag).
      injection H as <-.
      assert (Hx : In e (filter (Dexie.has_tag (jesterPrivateStartGameRef pk)) game_start))
        by (apply filter_In; split; [exact Hin | now apply has_tag_iff]).
      rewrite Ef in Hx. destruct Hx.
    + split; [|reflexivity]. intros _. split; [reflexivity|].
      assert (Hx : In x (filter (Dexie.has_tag (jesterPrivateStartGameRef pk)) game_start))
        by (rewrite Ef; now left).
      apply filter_In in Hx. destruct Hx as [Hin Htag]. apply has_tag_iff in Htag.
      exists pk, x. repeat split; trivial.
  - destruct (publicKeyOrNull settings) as [pk|];
      cbn [privateStartGameRef listOfPrivateStartGamesLiveQuery directChallengesCount];
      [|lia].
    destruct (negb _); cbn [directChallengesCount]; [lia|].
    apply firstn_le_length.
  - intros ->. reflexivity.
  - intro Hid. unfold publicKeyOrNull. rewrite Hid.
    unfold showsDirectChallenges. now destruct incomingNostr.
Qed.

(** X11: the two lists are not merged: a stored challenge that carries the
    viewer's tag and whose creation time lies in the window
    ([from <= created_at * 1000 < until]) is listed both among the direct
    challenges and among the latest games, as long as neither list is cut
    by its limit. *)
Theorem challenge_listed_twice
        (game_start : Dexie.Table) (w : GamesFilter) (pk : string) (e : GameStartEvent)
        (Href : jesterPrivateStartGameRef pk <> "")
        (Hin : In e game_start)
        (Htag : In (jesterPrivateStartGameRef pk) (event_tags e))
        (Hwin : getTime (from w) <= created_at e * 1000 < getTime (until w))
        (Hfew : (List.length
                   (Dexie.where_event_tags_equals game_start
                      (jesterPrivateStartGameRef pk)) <= 3)%nat)
        (Hroom : (List.length
                    (Dexie.where_created_at_between game_start
                       (seconds (from w)) (seconds (until w))) <= 100)%nat) :
  In e (listOfStartGamesLiveQuery game_start w) /\
  exists challenges,
    listOfPrivateStartGamesLiveQuery game_start
      (privateStartGameRef jesterPrivateStartGameRef (Some pk)) = Some challenges /\
    In e challenges.
Proof.
  split.
  - unfold listOfStartGamesLiveQuery, Dexie.limit, MAX_AMOUNT_OF_GAMES.
    change (Z.to_nat 100) with 100%nat. rewrite firstn_all2 by exact Hroom.
    apply where_created_at_between_ms. tauto.
  - unfold listOfPrivateStartGamesLiveQuery, privateStartGameRef, truthy, Dexie.limit.
    apply String.eqb_neq in Href. rewrite Href. cbn [negb].
    change (Z.to_nat 3) with 3%nat. rewrite firstn_all2 by exact Hfew.
    eexists. split; [reflexivity|].
    apply filter_In. split; [exact Hin | now apply has_tag_iff].
Qed.

End DirectChallenges.

Lemma challenge_listed_twice_witness :
  In (Scenario.challenge 1 20 "K") Scenario.challenges /\
  In (Scenario.challenge 1 20 "K")
     (listOfStartGamesLiveQuery Scenario.challenges
        (createGameOverviewFilter production (mkDate 0))) /\
  exists challenges,
    listOfPrivateStartGamesLiveQuery Scenario.challenges
      (privateStartGameRef Scenario.reference_stub (Some "K")) = Some challenges /\
    In (Scenario.challenge 1 20 "K") challenges.
Proof.
  assert (Hin : In (Scenario.challenge 1 20 "K") Scenario.challenges)
    by (left; reflexivity).
  split; [exact Hin|].
  apply (challenge_listed_twice Scenario.reference_stub Scenario.challenges
           (createGameOverviewFilter production (mkDate 0)) "K"
           (Scenario.challenge 1 20 "K")).
  - discriminate.
  - exact Hin.
  - left. reflexivity.
  - vm_compute. split; [discriminate | reflexivity].
  - apply Nat.leb_le. vm_compute. reflexivity.
  - apply Nat.leb_le. vm_compute. reflexivity.
Defined.

(** X12: the "Started at" date of every listed game lies between the
    "from" date (included) and the "to" date (excluded) that the lobby
    shows above the list. *)
Theorem listed_game_started_in_window
        (game_start : Dexie.Table) (w : GamesFilter) (e : GameStartEvent)
        (Hin : In e (listOfStartGamesLiveQuery game_start w)) :
  getTime (from w) <= getTime (GameCard.startedAt e) < getTime (until w).
Proof.
  apply In_firstn in Hin. apply where_created_at_between_In in Hin.
  destruct Hin as (_ & Hlo & Hhi).
  unfold seconds, Qle, Qlt, inject_Z in *. cbn [Qnum Qden] in *.
  unfold GameCard.startedAt. cbn [getTime]. lia.
Qed.

Lemma listed_game_started_in_window_witness :
  In (Scenario.challenge 2 10 "K")
     (listOfStartGamesLiveQuery Scenario.challenges
        (createGameOverviewFilter production (mkDate 0))) /\
  -300000 <= getTime (GameCard.startedAt (Scenario.challenge 2 10 "K")) < 300000.
Proof.
  assert (Hin : In (Scenario.challenge 2 10 "K")
                   (listOfStartGamesLiveQuery Scenario.challenges
                      (createGameOverviewFilter production (mkDate 0))))
    by (vm_compute; left; reflexivity).
  split; [exact Hin|].
  exact (listed_game_started_in_window _ _ _ Hin).
Defined.

End LobbyLists.

(** ** The refresh timer *)

Section Refresh.

Import LobbyPage LobbyRefresh.

Lemma run_aborted env events : forall st,
  aborted st = true -> run env st events = st.
Proof.
  induction events as [|ev events IH]; intros st Ha; [reflexivity|].
  unfold run in *. cbn [fold_left].
  destruct ev as [dateNow effectAt|].
  - cbn [step]. rewrite Ha. now apply IH.
  - rewrite IH by reflexivity. cbn [step]. destruct st. cbn in *. now subst.
Qed.

Lemma run_filter env events : forall st,
  (exists d, gameStartEventFilter st = createGameOverviewFilter env d) ->
  exists d, gameStartEventFilter (run env st events) = createGameOverviewFilter env d.
Proof.
  induction events as [|ev events IH]; intros st Hst; [exact Hst|].
  unfold run in *. cbn [fold_left]. apply IH.
  destruct ev as [dateNow effectAt|]; cbn [step]; [|exact Hst].
  destruct (aborted st); [exact Hst|].
  destruct (dateNow =? tick st); [exact Hst|].
  now exists effectAt.
Qed.

(** X13: whatever the timer does after the lobby is mounted, the filter in
    use is a window around some instant, so [from < until] and the width
    is [2 * D]; once the page is unmounted, a callback of the interval
    that still fires changes neither the tick nor the filter. *)
Theorem refresh_keeps_window
        (env : NodeEnv) (dateNow : Z) (effectAt : Date) (events : list Event) :
  let st := run env (mount env dateNow effectAt) events in
  let w := gameStartEventFilter st in
  getTime (from w) < getTime (until w) /\
  getTime (until w) - getTime (from w)
  = 2 * (GAMES_FILTER_PAST_DURATION_IN_SECONDS env * 1000) /\
  (forall more, run env (step env st Unmounted) more = step env st Unmounted).
Proof.
  cbv zeta.
  destruct (run_filter env events (mount env dateNow effectAt)) as (d & ->);
    [now exists effectAt|].
  assert (HD : 0 < GAMES_FILTER_PAST_DURATION_IN_SECONDS env)
    by (destruct env; reflexivity).
  unfold createGameOverviewFilter. cbn [from until getTime].
  split; [lia|]. split; [lia|].
  intro more. now apply run_aborted.
Qed.

End Refresh.

(** ** The development button and the navigation bar *)

Section Buttons.

Import CreateMultipleGamesButton DevButton.

Lemma requests_chunked (amount : Z) : requests (chunked amount) = Z.to_nat amount.
Proof.
  destruct (Z.le_gt_cases 0 amount) as [Hpos|Hneg].
  - destruct (last_chunk_bound amount Hpos) as [_ Hsum].
    unfold chunked. rewrite requests_app, requests_full_chunks, requests_clicks.
    exact Hsum.
  - rewrite chunked_small by lia. rewrite requests_clicks. reflexivity.
Qed.

(** X14: a click on the development button makes game-creation requests
    only when the event bus, the public key and the private key are all
    there, and then as many as the amount (none for an amount below 1);
    otherwise it makes none and raises one alert. *)
Theorem onButtonClicked_requests (ctx : Context) (amount : Z) :
  requestsOf (onButtonClicked ctx amount)
  = (if ready ctx then Z.to_nat amount else 0%nat) /\
  (ready ctx = true -> onButtonClicked ctx amount = Started (chunked amount)) /\
  (ready ctx = false -> exists message, onButtonClicked ctx amount = Alerted message).
Proof.
  unfold onButtonClicked, ready.
  destruct (outgoingNostr ctx); cbn [negb andb].
  2:{ split; [reflexivity|]. split; [discriminate | intros _; eexists; reflexivity]. }
  destruct (LobbyPage.publicKeyOrNull (settings ctx)); cbn [andb].
  2:{ split; [reflexivity|]. split; [discriminate | intros _; eexists; reflexivity]. }
  destruct (privateKeyOrNull ctx).
  2:{ split; [reflexivity|]. split; [discriminate | intros _; eexists; reflexivity]. }
  rewrite dev_createMultipleGames_chunked. cbn [requestsOf].
  split; [apply requests_chunked|]. split; [reflexivity | discriminate].
Qed.

(** X15: an amount below 1 makes no request and sets no timer. *)
Theorem dev_createMultipleGames_nothing (amount : Z) (Hamount : amount <= 0) :
  __dev_createMultipleGames amount = [].
Proof.
  rewrite dev_createMultipleGames_chunked, chunked_small by lia.
  replace (Z.to_nat amount) with 0%nat by lia. reflexivity.
Qed.

Lemma dev_createMultipleGames_nothing_witness :
  -3 <= 0 /\ __dev_createMultipleGames (-3) = [].
Proof.
  assert (H : -3 <= 0) by lia.
  split; [exact H | exact (dev_createMultipleGames_nothing (-3) H)].
Defined.

(** X16: after any number of clicks on the toggler the menu is open
    exactly when the number is odd, so two clicks leave it as it was. *)
Theorem navbar_menu_parity (n : nat) :
  AppNavbar.afterClicks n = Nat.odd n /\
  AppNavbar.afterClicks (S (S n)) = AppNavbar.afterClicks n.
Proof.
  assert (H : forall k, AppNavbar.afterClicks k = Nat.odd k).
  { induction k as [|k IH]; [reflexivity|].
    unfold AppNavbar.afterClicks in *. rewrite Nat.iter_succ, IH.
    unfold AppNavbar.onTogglerClick. now rewrite Nat.odd_succ, <- Nat.negb_odd. }
  split; [apply H|]. rewrite !H. now rewrite Nat.odd_succ_succ.
Qed.

End Buttons.
